(** * The inspector page of bluepea: tables, search and refresh

    A shallow embedding of [src/bluepea/static/pylib/inspector.py].

    The page is written in Python and its rows are the JSON objects the
    server delivers: an attribute of a row ([datum._uid], [obj._selected]) is
    a key of the object.  Rows are shared between a table's [data], its
    [_shownData] and its [_selected] attribute, so they live in a heap and the
    lists hold references.  Library calls are modelled by their documented
    contracts: [list.sort] is Python's stable sort, [str.lower] acts on the
    ASCII letters of a byte string, [JSON.stringify] follows ECMAScript's
    SerializeJSONProperty, [Promise.all] fulfils when every member has and
    rejects with the first member that does. *)

From stdpp Require Import gmap strings list sorting.
From Stdlib Require Import ZArith String Ascii DecimalString.

Set Warnings "-register-all".
Open Scope Z_scope.
Open Scope string_scope.
Open Scope list_scope.

(* ===================================================================== *)
(** * Part I: the program *)
(* ===================================================================== *)

(** ** Python strings *)

Module PyStr.

(** [s.startswith(p)] *)
Definition startswith (p s : string) : bool := String.prefix p s.

(** [s.endswith(p)] *)
Definition endswith (p s : string) : bool :=
  (String.length p <=? String.length s)%nat
  && String.eqb (substring (String.length s - String.length p) (String.length p) s) p.

(** [s[1:-1]]: empty for a string of fewer than two characters. *)
Definition slice_1_m1 (s : string) : string :=
  substring 1 (String.length s - 2) s.

Definition lower_ascii (c : ascii) : ascii :=
  let n := nat_of_ascii c in
  if (65 <=? n)%nat && (n <=? 90)%nat then ascii_of_nat (n + 32) else c.

(** [s.lower()] *)
Fixpoint lower (s : string) : string :=
  match s with
  | EmptyString => EmptyString
  | String c s' => String (lower_ascii c) (lower s')
  end.

(** [t in s] for two strings: [t] occurs in [s] at some offset. *)
Fixpoint contains (t s : string) : bool :=
  String.prefix t s
  || match s with
     | EmptyString => false
     | String _ s' => contains t s'
     end.

(** The double quote character as a string. *)
Definition dquote : string := String "034"%char EmptyString.

(** [str(i)] for an index. *)
Definition of_nat (i : nat) : string := NilEmpty.string_of_uint (Nat.to_uint i).

End PyStr.

(** ** JSON values and row objects *)

(** A JSON value.  An object keeps its keys in insertion order; a key occurs
    once (see [set_attr]), so iterating the pairs is iterating the keys and
    reading [obj[key]]. *)
Inductive Value : Type :=
| VNull
| VBool (b : bool)
| VNum (n : Z)
| VStr (s : string)
| VList (l : list Value)
| VObj (o : list (string * Value)).

Definition Obj : Type := list (string * Value).

(** [obj[key]], [None] when the key is missing. *)
Fixpoint get_attr (key : string) (o : Obj) : option Value :=
  match o with
  | [] => None
  | (k, v) :: o' => if String.eqb k key then Some v else get_attr key o'
  end.

(** [obj[key] = v]: replaces the value of an existing key in place, appends
    a new key. *)
Fixpoint set_attr (key : string) (v : Value) (o : Obj) : Obj :=
  match o with
  | [] => [(key, v)]
  | (k, w) :: o' =>
      if String.eqb k key then (k, v) :: o' else (k, w) :: set_attr key v o'
  end.

(** [del obj[key]] *)
Fixpoint del_attr (key : string) (o : Obj) : Obj :=
  match o with
  | [] => []
  | (k, w) :: o' =>
      if String.eqb k key then del_attr key o' else (k, w) :: del_attr key o'
  end.

(** A key the page keeps to itself: it starts with an underscore. *)
Definition private (key : string) : bool := PyStr.startswith "_" key.

(** ** Searcher *)

Record Searcher : Type := mkSearcher {
  searchTerm : option string;
  caseSensitive : bool
}.

Module SearcherM.

(** [Searcher.__init__] *)
Definition init : Searcher :=
  {| searchTerm := None; caseSensitive := false |}.

(** [Searcher.setSearch(term)]; [term] is [None] for a null/undefined
    term. *)
Definition setSearch (s : Searcher) (term : option string) : Searcher :=
  let t := match term with
           | Some t => t      (* [term or ""]: the empty string stays empty *)
           | None => ""
           end in
  let cs := PyStr.startswith PyStr.dquote t && PyStr.endswith PyStr.dquote t in
  if cs
  then {| searchTerm := Some (PyStr.slice_1_m1 t); caseSensitive := cs |}
  else {| searchTerm := Some (PyStr.lower t); caseSensitive := cs |}.

(** [Searcher._checkPrimitive(item)].  [searchTerm] is [None] only before
    the first [setSearch]; every caller of [search] runs [setSearch] first.
    Python raises there on the first string it meets; the model answers
    [false]. *)
Definition _checkPrimitive (s : Searcher) (item : Value) : bool :=
  match item with
  | VStr str =>
      let item' := if caseSensitive s then str else PyStr.lower str in
      match searchTerm s with
      | Some term => PyStr.contains term item'
      | None => false
      end
  | _ => false
  end.

(** [Searcher._checkAny(value)], with the body of [Searcher.search] at a
    mapping: [for key in obj: if key.startswith("_"): continue; if
    self._checkAny(obj[key]): return True] and [return False] at the end. *)
Fixpoint _checkAny (s : Searcher) (value : Value) : bool :=
  match value with
  | VObj o => existsb (fun kv => negb (private kv.1) && _checkAny s kv.2) o
  | VList l => existsb (_checkAny s) l
  | _ => _checkPrimitive s value
  end.

(** [Searcher.search(obj)] *)
Definition search (s : Searcher) (obj : Obj) : bool :=
  existsb (fun kv => negb (private kv.1) && _checkAny s kv.2) obj.

End SearcherM.

(** [t] occurs in [s]. *)
Definition Substring (t s : string) : Prop := ∃ a b, s = a +:+ t +:+ b.

(** The strings a search can reach in a value: the value itself when it is
    a string, the strings reachable in an item of a sequence, and those
    reachable under a key of a mapping that does not start with an
    underscore. *)
Inductive Reachable : Value -> string -> Prop :=
| reach_str (s : string) : Reachable (VStr s) s
| reach_list (l : list Value) (x : Value) (s : string) :
    x ∈ l -> Reachable x s -> Reachable (VList l) s
| reach_obj (o : list (string * Value)) (k : string) (x : Value) (s : string) :
    (k, x) ∈ o -> private k = false -> Reachable x s -> Reachable (VObj o) s.

(** The term a searcher looks for occurs in [str], after the lowering of
    [str] when the search is not case sensitive. *)
Definition matches (s : Searcher) (str : string) : Prop :=
  ∃ term, searchTerm s = Some term
          ∧ Substring term (if caseSensitive s then str else PyStr.lower str).

(** ** JSON.stringify *)

Module JSON.
Section Stringify.

(** The serialisations of the primitives are the runtime's: QuoteJSONString
    for a string and for a key, Number::toString for a number. *)
Variable quote : string -> string.
Variable number : Z -> string.

(** The replacer function.  The one replacer of the page returns its value
    unchanged or returns nothing, so a replacer is the set of keys whose
    value it returns: [keeps key = false] when it returns [undefined]. *)
Variable keeps : string -> bool.

Definition nl : string := String "010"%char EmptyString.

Fixpoint spaces (n : nat) : string :=
  match n with
  | O => EmptyString
  | S n' => String " "%char (spaces n')
  end.

Fixpoint join (sep : string) (l : list string) : string :=
  match l with
  | [] => EmptyString
  | [x] => x
  | x :: l' => x +:+ sep +:+ join sep l'
  end.

(** The brackets around the serialised members, SerializeJSONObject steps
    8-10 and SerializeJSONArray steps 8-10. *)
Definition wrap (gap indent : string) (open close : string)
    (partial : list string) : string :=
  match partial with
  | [] => open +:+ close
  | _ =>
      if String.eqb gap EmptyString
      then open +:+ join "," partial +:+ close
      else
        let indent' := indent +:+ gap in
        open +:+ nl +:+ indent' +:+ join ("," +:+ nl +:+ indent') partial
             +:+ nl +:+ indent +:+ close
  end.

(** SerializeJSONProperty on a value the replacer returned; [indent] is
    the indentation of the enclosing line.  A property whose value the
    replacer drops is left out of an object and is [null] in an array. *)
Fixpoint ser (gap indent : string) (v : Value) {struct v} : string :=
  match v with
  | VNull => "null"
  | VBool true => "true"
  | VBool false => "false"
  | VNum n => number n
  | VStr s => quote s
  | VList l =>
      wrap gap indent "[" "]"
        ((fix elements (i : nat) (l : list Value) : list string :=
            match l with
            | [] => []
            | x :: l' =>
                (if keeps (PyStr.of_nat i) then ser gap (indent +:+ gap) x
                 else "null") :: elements (S i) l'
            end) O l)
  | VObj o =>
      wrap gap indent "{" "}"
        (flat_map (fun kv =>
                     if keeps kv.1
                     then [quote kv.1 +:+ ":"
                           +:+ (if String.eqb gap EmptyString then "" else " ")
                           +:+ ser gap (indent +:+ gap) kv.2]
                     else []) o)
  end.

(** [JSON.stringify(value, replacer, space)] for a number [space]: the
    value sits under the key [""] of a wrapper object, so the replacer sees
    it first; the result is [None] ([undefined]) when it drops it. *)
Definition stringify (value : Value) (space : nat) : option string :=
  if keeps "" then Some (ser (spaces (Nat.min 10 space)) "" value) else None.

End Stringify.
End JSON.

(** A value without its private keys, at every depth. *)
Fixpoint strip_private (v : Value) : Value :=
  match v with
  | VList l => VList (map strip_private l)
  | VObj o =>
      VObj (flat_map (fun kv =>
                        if private kv.1 then []
                        else [(kv.1, strip_private kv.2)]) o)
  | _ => v
  end.

(** ** Fields *)

Inductive Exception : Type := TypeError | AttributeError.

Inductive Result (A : Type) : Type :=
| Ok (a : A)
| Raise (e : Exception).
Arguments Ok {A} a.
Arguments Raise {A} e.

(** The vnode [m(tag, attrs, text)] of a table cell. *)
Record VNode : Type := mkVNode {
  tag : string;
  attrs : list (string * string);
  text : string
}.

(** The classes of fields. *)
Inductive FieldClass : Type :=
| CField | CFillField | CDateField | CEpochField
| CIDField | CDIDField | CHIDField | COIDField | CMIDField.

Record Field : Type := mkField {
  cls : FieldClass;
  title : string;
  mlength : nat;
  name : string
}.

Module FieldM.

(** The class attribute [Title]. *)
Definition Title (c : FieldClass) : option string :=
  match c with
  | CField | CFillField => None
  | CDateField | CEpochField => Some "Date"
  | CIDField | COIDField | CMIDField => Some "UID"
  | CDIDField => Some "DID"
  | CHIDField => Some "HID"
  end.

(** The class attribute [Length]. *)
Definition Length (c : FieldClass) : nat :=
  match c with
  | CFillField => 100
  | CDateField | CEpochField => 12
  | _ => 4
  end%nat.

(** The class attribute [Header] of the id fields. *)
Definition Header (c : FieldClass) : string :=
  match c with
  | CDIDField => "did:igo:"
  | CHIDField => "hid:"
  | COIDField => "o_"
  | CMIDField => "m_"
  | _ => ""
  end.

(** [Field.__init__(title=None, length=None)]: [self.title.lower()] raises
    when neither the class nor the caller gives a title. *)
Definition init (c : FieldClass) (title : option string) (length : option nat)
    : Result Field :=
  let title' := match title with Some t => Some t | None => Title c end in
  let mlength' := match length with Some n => n | None => Length c end in
  match title' with
  | Some t => Ok {| cls := c; title := t; mlength := mlength'; name := PyStr.lower t |}
  | None => Raise AttributeError
  end.

Section Format.

(** [str(v)] of a value that is not a string, and
    [Date(ms).toISOString()]: the runtime's. *)
Variable repr : Value -> string.
Variable toISOString : Z -> string.

(** [str(data)] *)
Definition py_str (data : Value) : string :=
  match data with
  | VStr s => s
  | _ => repr data
  end.

(** [Field.format] with the overrides of [EpochField] and [IDField]:
    [data / 1000] is defined on a number and the [startswith] of
    [IDField.format] on a string. *)
Definition format (f : Field) (data : Value) : Result string :=
  match cls f with
  | CField | CFillField | CDateField => Ok (py_str data)
  | CEpochField =>
      match data with
      | VNum n => Ok (py_str (VStr (toISOString (Z.quot n 1000))))
      | _ => Raise TypeError
      end
  | CIDField | CDIDField | CHIDField | COIDField | CMIDField =>
      match data with
      | VStr s =>
          let hd := Header (cls f) in
          let s' := if PyStr.startswith hd s
                    then substring (String.length hd)
                           (String.length s - String.length hd) s
                    else s in
          Ok (py_str (VStr s'))
      | _ => Raise AttributeError
      end
  end.

(** [Field.shorten] *)
Definition shorten (f : Field) (s : string) : string := s.

(** [Field.view(data)] and the override of [FillField]; [data] is [None]
    when the row has no such key. *)
Definition view (f : Field) (data : option Value) : Result VNode :=
  let data' := match data with
               | None | Some VNull => VStr ""
               | Some v => v
               end in
  match format f data' with
  | Raise e => Raise e
  | Ok formatted =>
      let node := {| tag := "td"; attrs := [("title", formatted)];
                     text := shorten f formatted |} in
      match cls f with
      | CFillField =>
          Ok {| tag := tag node;
                attrs := attrs node ++ [("class", "fill-space")];
                text := text node |}
      | _ => Ok node
      end
  end.

End Format.

End FieldM.

#[global] Instance FieldClass_eq_dec : EqDecision FieldClass.
Proof. solve_decision. Defined.

#[global] Instance Field_eq_dec : EqDecision Field.
Proof. solve_decision. Defined.

(** ** The heap of row objects *)

Abbreviation loc := nat (only parsing).
Abbreviation Heap := (gmap nat Obj) (only parsing).

(** The object a reference denotes; a reference the heap does not hold
    denotes an object without keys. *)
Definition deref (h : Heap) (l : loc) : Obj := default [] (h !! l).

(** [obj.key], [obj.key = v] and [del obj.key] through a reference. *)
Definition read (h : Heap) (l : loc) (key : string) : option Value :=
  get_attr key (deref h l).

Definition write (h : Heap) (l : loc) (key : string) (v : Value) : Heap :=
  <[l := set_attr key v (deref h l)]> h.

Definition delete_key (h : Heap) (l : loc) (key : string) : Heap :=
  <[l := del_attr key (deref h l)]> h.

(** [if v:] *)
Definition truthy (v : Value) : bool :=
  match v with
  | VNull => false
  | VBool b => b
  | VNum n => negb (n =? 0)%Z
  | VStr s => negb (String.eqb s "")
  | VList l => match l with [] => false | _ => true end
  | VObj o => match o with [] => false | _ => true end
  end.

(** [if obj._selected:], the test of the view for the active row. *)
Definition flagged (h : Heap) (l : loc) : bool :=
  match read h l "_selected" with
  | Some v => truthy v
  | None => false
  end.

(** [a == b] on two values, [None] being a missing attribute. *)
Fixpoint value_eqb (a b : Value) {struct a} : bool :=
  match a, b with
  | VNull, VNull => true
  | VBool x, VBool y => Bool.eqb x y
  | VNum x, VNum y => (x =? y)%Z
  | VStr x, VStr y => String.eqb x y
  | VList l, VList m =>
      (fix go (l m : list Value) : bool :=
         match l, m with
         | [], [] => true
         | x :: l', y :: m' => value_eqb x y && go l' m'
         | _, _ => false
         end) l m
  | VObj o, VObj p =>
      (fix go (o p : list (string * Value)) : bool :=
         match o, p with
         | [], [] => true
         | (k, x) :: o', (k', y) :: p' =>
             String.eqb k k' && value_eqb x y && go o' p'
         | _, _ => false
         end) o p
  | _, _ => false
  end.

Definition py_eq (a b : option Value) : bool :=
  match a, b with
  | Some x, Some y => value_eqb x y
  | None, None => true
  | _, _ => false
  end.

(** [a < b] on two extracted keys that Python orders: two numbers by value,
    two strings by code point.  It is the order of the scenarios below; the
    table operations take the order as a parameter. *)
Definition value_lt (a b : option Value) : bool :=
  match a, b with
  | Some (VNum x), Some (VNum y) => (x <? y)%Z
  | Some (VStr x), Some (VStr y) => String.ltb x y
  | _, _ => false
  end.

(** ** list.sort *)

Module PySort.
Section Sort.

Context {A K : Type}.
(** [a < b] on two keys. *)
Variable lt : K -> K -> bool.
Variable key : A -> K.

(** [x] stood before every element of [l]: it goes in before the first
    element that is not smaller, so behind no element of equal key. *)
Fixpoint insert (x : A) (l : list A) : list A :=
  match l with
  | [] => [x]
  | y :: l' =>
      if lt (key y) (key x) then y :: insert x l' else x :: y :: l'
  end.

Definition stable_sort (l : list A) : list A := foldr insert [] l.

(** [l.sort(key=key, reverse=reverse)].  A reverse sort reverses the list,
    sorts it forward and reverses the result, which keeps elements of
    equal key in their original order. *)
Definition sort (reverse : bool) (l : list A) : list A :=
  if reverse then rev (stable_sort (rev l)) else stable_sort l.

(** The order of two neighbours of an ascending list: the second is not
    smaller than the first. *)
Definition ascending (x y : A) : Prop := lt (key y) (key x) = false.

End Sort.
End PySort.

(** ** Table *)

Module TableM.
Section Table.

(** The values a filter can be: callables.  [same f g] is [f == g] on
    two of them and [call f obj] is [f(obj)]. *)
Variable Callable : Type.
Variable same : Callable -> Callable -> bool.
Variable call : Callable -> Obj -> bool.

(** [a < b] on the values [_getField] extracts. *)
Variable key_lt : option Value -> option Value -> bool.

(** The method [_getField] of the table's class; [Table]'s own is
    [_getField] below. *)
Variable getField : Obj -> Field -> option Value.

(** The runtime's serialisation of strings and numbers in
    [JSON.stringify]. *)
Variable quote : string -> string.
Variable number : Z -> string.

Record Table : Type := mkTable {
  max_size : nat;
  fields : list Field;
  data : list loc;
  _shownData : list loc;
  _selected : option loc;
  detailSelected : option string;
  filter : option Callable;
  sortField : option Field;
  reversed : bool;
  total : nat;
  shown : nat
}.

Definition set_data (d : list loc) (t : Table) : Table :=
  mkTable (max_size t) (fields t) d (_shownData t) (_selected t)
    (detailSelected t) (filter t) (sortField t) (reversed t) (total t) (shown t).

Definition set_shownData (d : list loc) (t : Table) : Table :=
  mkTable (max_size t) (fields t) (data t) d (_selected t)
    (detailSelected t) (filter t) (sortField t) (reversed t) (total t) (shown t).

Definition set_selected (s : option loc) (d : option string) (t : Table) : Table :=
  mkTable (max_size t) (fields t) (data t) (_shownData t) s
    d (filter t) (sortField t) (reversed t) (total t) (shown t).

Definition set_filter (f : option Callable) (t : Table) : Table :=
  mkTable (max_size t) (fields t) (data t) (_shownData t) (_selected t)
    (detailSelected t) f (sortField t) (reversed t) (total t) (shown t).

Definition set_sort (f : option Field) (r : bool) (t : Table) : Table :=
  mkTable (max_size t) (fields t) (data t) (_shownData t) (_selected t)
    (detailSelected t) (filter t) f r (total t) (shown t).

Definition set_total (n : nat) (t : Table) : Table :=
  mkTable (max_size t) (fields t) (data t) (_shownData t) (_selected t)
    (detailSelected t) (filter t) (sortField t) (reversed t) n (shown t).

Definition set_shown (n : nat) (t : Table) : Table :=
  mkTable (max_size t) (fields t) (data t) (_shownData t) (_selected t)
    (detailSelected t) (filter t) (sortField t) (reversed t) (total t) n.

(** Two tables that differ in [data] and [total] at most. *)
Definition same_settings (t t' : Table) : Prop :=
  max_size t' = max_size t
  ∧ fields t' = fields t
  ∧ _shownData t' = _shownData t
  ∧ _selected t' = _selected t
  ∧ detailSelected t' = detailSelected t
  ∧ filter t' = filter t
  ∧ sortField t' = sortField t
  ∧ reversed t' = reversed t
  ∧ shown t' = shown t.

(** Two tables that differ in [_shownData] and [shown] at most. *)
Definition same_rows (t t' : Table) : Prop :=
  max_size t' = max_size t
  ∧ fields t' = fields t
  ∧ data t' = data t
  ∧ _selected t' = _selected t
  ∧ detailSelected t' = detailSelected t
  ∧ filter t' = filter t
  ∧ sortField t' = sortField t
  ∧ reversed t' = reversed t
  ∧ total t' = total t.

(** [Table.__init__(fields)] *)
Definition init (fields : list Field) : Table :=
  {| max_size := 1000; fields := fields; data := []; _shownData := [];
     _selected := None; detailSelected := Some "";
     filter := None; sortField := None; reversed := false;
     total := 0; shown := 0 |}.

(** The replacer of [Table._stringify]: [undefined] for a key that starts
    with an underscore, the value otherwise. *)
Definition replacer (key : string) : bool := negb (PyStr.startswith "_" key).

(** [Table._stringify(obj)] *)
Definition _stringify (obj : Obj) : option string :=
  JSON.stringify quote number replacer (VObj obj) 2.

(** The row as the details pane prints it: pretty-printed with an indent of
    two, without its private keys. *)
Definition details (h : Heap) (obj : loc) : option string :=
  JSON.stringify quote number (fun _ => true)
    (strip_private (VObj (deref h obj))) 2.

(** [Table._selectRow(event, obj)] *)
Definition _selectRow (h : Heap) (t : Table) (obj : loc) : Heap * Table :=
  let select (h : Heap) :=
    let h' := write h obj "_selected" (VBool true) in
    (h', set_selected (Some obj) (_stringify (deref h' obj)) t) in
  match _selected t with
  | Some sel =>
      let h1 := delete_key h sel "_selected" in
      if py_eq (read h1 sel "_uid") (read h1 obj "_uid")
      then (h1, set_selected None (Some "") t)
      else select h1
  | None => select h
  end.

(** Modelled from the spec: [server.clearArray], of the module
    [pylib/server.py] that is not among the sources; it "discards all
    existing rows" of the array it is given, in place. *)
Definition clearArray (a : list loc) : list loc := [].

(** [Table.clear()] *)
Definition clear (t : Table) : Table :=
  set_data (clearArray (data t)) (set_total 0 t).

(** [Table._getField(obj, field)]: [obj[field.name]]. *)
Definition _getField (obj : Obj) (field : Field) : option Value :=
  get_attr (name field) obj.

(** [Table._sortData()] *)
Definition _sortData (h : Heap) (t : Table) : Table :=
  match sortField t with
  | None => t
  | Some f =>
      set_shownData
        (PySort.sort key_lt (fun obj => getField (deref h obj) f)
           (reversed t) (_shownData t)) t
  end.

(** What the filter says of a row: every row passes when no filter is
    set. *)
Definition accepted (h : Heap) (flt : option Callable) (obj : loc) : bool :=
  match flt with
  | Some f => call f (deref h obj)
  | None => true
  end.

(** The loop of [Table._processData]: [acc] and [n] are [self._shownData]
    and [self.shown], [rest] what is left of [self.data]. *)
Fixpoint process_loop (max_size : nat) (flt : option Callable) (h : Heap)
    (rest : list loc) (acc : list loc) (n : nat) : list loc * nat :=
  match rest with
  | [] => (acc, n)
  | obj :: rest' =>
      if (max_size <=? n)%nat then (acc, n)                      (* break *)
      else
        match flt with
        | Some f =>
            if negb (call f (deref h obj))
            then process_loop max_size flt h rest' acc n         (* continue *)
            else process_loop max_size flt h rest' (acc ++ [obj]) (S n)
        | None => process_loop max_size flt h rest' (acc ++ [obj]) (S n)
        end
  end.

(** [Table._processData()] up to its last line, the call of
    [_sortData]. *)
Definition process_pass (h : Heap) (t : Table) : Table :=
  let '(acc, n) :=
    process_loop (max_size t) (filter t) h (data t)
      (clearArray (_shownData t)) 0 in
  set_shown n (set_shownData acc t).

(** [Table._processData()] *)
Definition _processData (h : Heap) (t : Table) : Table :=
  _sortData h (process_pass h t).

(** One turn of the loop of [_setData]. *)
Definition add_datum (ht : Heap * Table) (datum : loc) : Heap * Table :=
  let '(h, t) := ht in
  let h' := write h datum "_uid" (VNum (Z.of_nat (total t))) in
  (h', set_total (total t + 1) (set_data (data t ++ [datum]) t)).

(** The loop of [_setData] with what precedes it. *)
Definition add_data (h : Heap) (t : Table) (rows : list loc) (clr : bool)
    : Heap * Table :=
  foldl add_datum (h, if clr then clear t else t) rows.

(** [Table._setData(data, clear=True)] *)
Definition _setData (h : Heap) (t : Table) (rows : list loc) (clr : bool)
    : Heap * Table :=
  let '(h', t') := add_data h t rows clr in
  (h', _processData h' t').

(** A sequence of calls [_setData(rows)], each with the default
    [clear=True]. *)
Definition setData_seq (h : Heap) (t : Table) (batches : list (list loc))
    : Heap * Table :=
  foldl (fun ht rows => _setData ht.1 ht.2 rows true) (h, t) batches.

(** [func != self.filter] *)
Definition filter_ne (f g : option Callable) : bool :=
  match f, g with
  | None, None => false
  | Some f', Some g' => negb (same f' g')
  | _, _ => true
  end.

(** [Table.setFilter(func)] *)
Definition setFilter (h : Heap) (t : Table) (func : option Callable) : Table :=
  if filter_ne func (filter t)
  then _processData h (set_filter func t)
  else t.

(** [Table.setSort(field)] *)
Definition setSort (h : Heap) (t : Table) (field : Field) : Table :=
  let t' :=
    if decide (sortField t = Some field)
    then set_sort (sortField t) (negb (reversed t)) t
    else set_sort (Some field) false t in
  _sortData h t'.

(** [Table.refresh()]: the data of the base class is empty. *)
Definition refresh (h : Heap) (t : Table) : Heap * Table :=
  _setData h t [] true.

(** [EntitiesTable.refresh()] up to its return: the two fetches are under
    way, nothing has arrived. *)
Definition entities_refresh (t : Table) : Table := clear t.

(** The callbacks of [EntitiesTable.refresh()], run when the agents and
    when the things have arrived: [self._setData(rows, clear=False)]. *)
Definition entities_arrived (h : Heap) (t : Table) (rows : list loc)
    : Heap * Table :=
  _setData h t rows false.

(** Rows of one extracted key are shown in the order of [data]: each such
    class of shown rows is a subsequence of [data]. *)
Definition ties_in_insertion_order (h : Heap) (t : Table) (F : Field) : Prop :=
  ∀ P : loc → bool,
    (∀ x y, P x = true → P y = true →
            getField (deref h x) F = getField (deref h y) F) →
    sublist (List.filter P (_shownData t)) (data t).

(** The invariant the data model states: the shown rows are rows of
    [data], their count is at most [max_size], and the selected row, if any,
    is a row of [data]. *)
Definition invariant (t : Table) : Prop :=
  (∀ l, l ∈ _shownData t → l ∈ data t)
  ∧ (shown t ≤ max_size t)%nat
  ∧ (∀ l, _selected t = Some l → l ∈ data t).

(** No row carries the selected flag but the selected one. *)
Definition only_selected_flagged (h : Heap) (t : Table) : Prop :=
  ∀ l, flagged h l = true → _selected t = Some l.

(** The reading of "the shown subsequence is computed once, after both
    batches complete": when the first of the two batches of a refresh of the
    entities table has arrived, the shown rows are still those from before
    the refresh. *)
Definition shown_once_after_both (h : Heap) (t : Table) (b1 b2 : list loc)
    : Prop :=
  let t0 := entities_refresh t in
  let ht1 := entities_arrived h t0 b1 in
  _shownData ht1.2 = _shownData t0 ∧ shown ht1.2 = shown t0.

End Table.

Arguments max_size {Callable} t.
Arguments fields {Callable} t.
Arguments data {Callable} t.
Arguments _shownData {Callable} t.
Arguments _selected {Callable} t.
Arguments detailSelected {Callable} t.
Arguments filter {Callable} t.
Arguments sortField {Callable} t.
Arguments reversed {Callable} t.
Arguments total {Callable} t.
Arguments shown {Callable} t.
Arguments same_settings {Callable} t t'.
Arguments same_rows {Callable} t t'.
Arguments set_data {Callable} d t.
Arguments set_shownData {Callable} d t.
Arguments set_selected {Callable} s d t.
Arguments set_filter {Callable} f t.
Arguments set_sort {Callable} f r t.
Arguments set_total {Callable} n t.
Arguments set_shown {Callable} n t.
Arguments _selectRow {Callable} quote number h t obj.
Arguments clear {Callable} t.
Arguments _sortData {Callable} key_lt getField h t.
Arguments accepted {Callable} call h flt obj.
Arguments process_loop {Callable} call max_size flt h rest acc n.
Arguments process_pass {Callable} call h t.
Arguments _processData {Callable} call key_lt getField h t.
Arguments add_datum {Callable} ht datum.
Arguments add_data {Callable} h t rows clr.
Arguments _setData {Callable} call key_lt getField h t rows clr.
Arguments setData_seq {Callable} call key_lt getField h t batches.
Arguments filter_ne {Callable} same f g.
Arguments setFilter {Callable} same call key_lt getField h t func.
Arguments setSort {Callable} key_lt getField h t field.
Arguments refresh {Callable} call key_lt getField h t.
Arguments entities_refresh {Callable} t.
Arguments entities_arrived {Callable} call key_lt getField h t rows.
Arguments ties_in_insertion_order {Callable} getField h t F.
Arguments invariant {Callable} t.
Arguments only_selected_flagged {Callable} h t.
Arguments shown_once_after_both {Callable} call key_lt getField h t b1 b2.

End TableM.

(** ** Promises *)

Inductive PState : Type := Pending | Fulfilled | Rejected.

(** What a settled promise calls back: the local function [done] of
    [Tabs.refresh] is the one callback of the page's coordinator. *)
Inductive Callback : Type := Done.

(** The promises of the coordinator: the promise a table's [refresh()]
    returned, which its fetches settle, and [Promise.all(members)] with the
    callbacks [then] and [catch] registered on it.  A handle is an index of
    the store. *)
Inductive Promise : Type :=
| TableRefresh (st : PState)
| All (st : PState) (members : list nat) (on_then on_catch : list Callback).

Definition pstate (p : Promise) : PState :=
  match p with
  | TableRefresh st => st
  | All st _ _ _ => st
  end.

#[global] Instance PState_eq_dec : EqDecision PState.
Proof. solve_decision. Defined.

#[global] Instance Callback_eq_dec : EqDecision Callback.
Proof. solve_decision. Defined.

#[global] Instance Promise_eq_dec : EqDecision Promise.
Proof. solve_decision. Defined.

(** ** Tabs *)

Module TabsM.

(** The one callable the coordinator installs as a filter: the bound
    method [self.searcher.search]. *)
Inductive Method : Type := searcher_search.

Abbreviation Table := (TableM.Table Method).

Record Tab : Type := mkTab {
  Data_tab : string;
  table : Table
}.

Record Tabs : Type := mkTabs {
  tabs : list Tab;
  searcher : Searcher;
  _refreshing : bool;
  _refreshPromise : option nat
}.

(** The page: the coordinator, the heap of row objects with its next free
    reference, and the promises made so far. *)
Record World : Type := mkWorld {
  heap : Heap;
  next : nat;
  store : list Promise;
  page : Tabs
}.

(** What happens to the page: the refresh button, a table's refresh
    promise settling, the callback of a fetch running [_setData] on the
    rows that arrived, the two searches, and a click on a header or on a
    shown row. *)
Inductive Event : Type :=
| EvRefresh
| EvSettle (p : nat) (ok : bool)
| EvArrive (i : nat) (rows : list Obj) (clr : bool)
| EvSearchAll (text : option string)
| EvSearchCurrent (text : option string) (active : option string)
| EvSetSort (i : nat) (f : Field)
| EvSelectRow (i : nat) (obj : loc).

(** A field as the table constructors make it; each of them has a title,
    its own or its class's. *)
Definition new_field (c : FieldClass) (title : option string)
    (length : option nat) : Field :=
  match FieldM.init c title length with
  | Ok f => f
  | Raise _ => {| cls := c; title := ""; mlength := FieldM.Length c; name := "" |}
  end.

Definition EntitiesTable_fields : list Field :=
  [ new_field CDIDField None None; new_field CHIDField None None;
    new_field CDIDField (Some "Signer") None;
    new_field CDateField (Some "Changed") None;
    new_field CField (Some "Issuants") None;
    new_field CFillField (Some "Data") None;
    new_field CField (Some "Keys") None ].

Definition IssuantsTable_fields : list Field :=
  [ new_field CDIDField None None; new_field CField (Some "Kind") None;
    new_field CFillField (Some "Issuer") None;
    new_field CDateField (Some "Registered") None;
    new_field CFillField (Some "URL") None ].

Definition OffersTable_fields : list Field :=
  [ new_field COIDField (Some "UID") None;
    new_field CDIDField (Some "Thing") None;
    new_field CDIDField (Some "Aspirant") None;
    new_field CField (Some "Duration") (Some 5%nat);
    new_field CDateField (Some "Expiration") None;
    new_field CDIDField (Some "Signer") None;
    new_field CDIDField (Some "Offerer") None ].

Definition MessagesTable_fields : list Field :=
  [ new_field CMIDField (Some "UID") None;
    new_field CField (Some "Kind") (Some 8%nat);
    new_field CDateField None None;
    new_field CDIDField (Some "To") None;
    new_field CDIDField (Some "From") None;
    new_field CDIDField (Some "Thing") None;
    new_field CField (Some "Subject") (Some 10%nat);
    new_field CFillField (Some "Content") None ].

Definition AnonMsgsTable_fields : list Field :=
  [ new_field CIDField (Some "UID") None;
    new_field CDateField None None;
    new_field CEpochField (Some "Created") None;
    new_field CEpochField (Some "Expire") None;
    new_field CFillField (Some "Content") None ].

(** A row with a string for a search to reach. *)
Definition has_string (o : Obj) : Prop := ∃ str, Reachable (VObj o) str.

(** A tab whose table shows, when it has a filter installed, only rows with
    a string for a search to reach, and whose rows are objects the heap has
    handed out: their references are below [n]. *)
Definition tab_ok (h : Heap) (n : nat) (tab : Tab) : Prop :=
  (is_Some (TableM.filter (table tab)) →
   ∀ l, l ∈ TableM._shownData (table tab) → has_string (deref h l))
  ∧ (∀ l, l ∈ TableM.data (table tab) ∨ l ∈ TableM._shownData (table tab) →
          (l < n)%nat).

Definition rows_ok (w : World) : Prop :=
  Forall (tab_ok (heap w) (next w)) (tabs (page w)).

(** The state of the promise of a handle. *)
Definition state_of (w : World) (a : nat) : option PState :=
  pstate <$> store w !! a.

(** The aggregate refreshes that are outstanding: the pending
    [Promise.all]s of the store. *)
Definition outstanding (w : World) (a : nat) : Prop :=
  ∃ ms th ca, store w !! a = Some (All Pending ms th ca).

(** The guard of the coordinator is set exactly while its aggregate refresh
    is outstanding, and no other aggregate is. *)
Definition guarded (w : World) : Prop :=
  (∀ a, outstanding w a →
        _refreshing (page w) = true ∧ _refreshPromise (page w) = Some a)
  ∧ (_refreshing (page w) = true →
     ∃ a, _refreshPromise (page w) = Some a ∧ outstanding w a)
  ∧ (∀ a, _refreshPromise (page w) = Some a →
          ∃ st ms, store w !! a = Some (All st ms [Done] [Done])).

Section Tabs.

(** [f == g] on the bound method. *)
Variable same : Method -> Method -> bool.
Variable key_lt : option Value -> option Value -> bool.
(** [_getField] of the table class of the tab of that [Data_tab]. *)
Variable getFieldOf : string -> Obj -> Field -> option Value.
Variable quote : string -> string.
Variable number : Z -> string.

(** Calling the bound method [self.searcher.search] reads the searcher as
    it is at the call. *)
Definition call (s : Searcher) (m : Method) (obj : Obj) : bool :=
  SearcherM.search s obj.

Definition set_table (t : Table) (tab : Tab) : Tab :=
  {| Data_tab := Data_tab tab; table := t |}.

Definition set_tabs (l : list Tab) (p : Tabs) : Tabs :=
  {| tabs := l; searcher := searcher p; _refreshing := _refreshing p;
     _refreshPromise := _refreshPromise p |}.

Definition set_searcher (s : Searcher) (p : Tabs) : Tabs :=
  {| tabs := tabs p; searcher := s; _refreshing := _refreshing p;
     _refreshPromise := _refreshPromise p |}.

Definition set_refreshing (b : bool) (p : Tabs) : Tabs :=
  {| tabs := tabs p; searcher := searcher p; _refreshing := b;
     _refreshPromise := _refreshPromise p |}.

Definition set_refreshPromise (r : option nat) (p : Tabs) : Tabs :=
  {| tabs := tabs p; searcher := searcher p; _refreshing := _refreshing p;
     _refreshPromise := r |}.

(** [Tabs.__init__] up to its last line, the first [self.refresh()]. *)
Definition new_tabs : Tabs :=
  {| tabs := [ mkTab "entities" (TableM.init Method EntitiesTable_fields);
               mkTab "issuants" (TableM.init Method IssuantsTable_fields);
               mkTab "offers" (TableM.init Method OffersTable_fields);
               mkTab "messages" (TableM.init Method MessagesTable_fields);
               mkTab "anonmsgs" (TableM.init Method AnonMsgsTable_fields) ];
     searcher := SearcherM.init;
     _refreshing := false;
     _refreshPromise := None |}.

(** [tab.table.refresh()] of the five table classes up to its return:
    each clears its table and returns the promise of its fetches. *)
Definition table_refresh (tab : Tab) : Tab :=
  set_table (TableM.clear (table tab)) tab.

(** [Tabs.refresh()]: the world after the call and what it returns. *)
Definition refresh (w : World) : World * option nat :=
  let p := page w in
  if _refreshing p then (w, _refreshPromise p)
  else
    let p1 := set_refreshing true p in
    let first := List.length (store w) in
    let promises := seq first (List.length (tabs p1)) in
    let store1 := store w ++ map (fun _ => TableRefresh Pending) (tabs p1) in
    let p2 := set_tabs (map table_refresh (tabs p1)) p1 in
    let all := List.length store1 in
    let store2 := store1 ++ [All Pending promises [Done] [Done]] in
    let p3 := set_refreshPromise (Some all) p2 in
    ({| heap := heap w; next := next w; store := store2; page := p3 |},
     _refreshPromise p3).

(** The callback [done]. *)
Definition run_callback (p : Tabs) (c : Callback) : Tabs :=
  match c with
  | Done => set_refreshing false p
  end.

Definition is_fulfilled (s : list Promise) (m : nat) : bool :=
  match s !! m with
  | Some pr => bool_decide (pstate pr = Fulfilled)
  | None => false
  end.

(** What [Promise.all] does with one of its members settling: [s] is the
    store with the member settled.  The result is the promise as it is
    then and the callbacks to run. *)
Definition react (s : list Promise) (m : nat) (ok : bool) (pr : Promise)
    : Promise * list Callback :=
  match pr with
  | All Pending ms th ca =>
      if bool_decide (m ∈ ms)
      then
        if ok
        then if forallb (is_fulfilled s) ms
             then (All Fulfilled ms th ca, th)
             else (pr, [])
        else (All Rejected ms th ca, ca)
      else (pr, [])
  | _ => (pr, [])
  end.

(** The promise a table's refresh returned settles. *)
Definition settle (w : World) (m : nat) (ok : bool) : World :=
  match store w !! m with
  | Some (TableRefresh Pending) =>
      let s1 := <[m := TableRefresh (if ok then Fulfilled else Rejected)]> (store w) in
      let rs := map (react s1 m ok) s1 in
      {| heap := heap w; next := next w;
         store := map fst rs;
         page := foldl run_callback (page w) (List.concat (map snd rs)) |}
  | _ => w
  end.

(** The rows the server delivered become objects of the heap. *)
Fixpoint alloc (h : Heap) (n : nat) (rows : list Obj) : Heap * list loc :=
  match rows with
  | [] => (h, [])
  | o :: rows' =>
      let '(h', ls) := alloc (<[n := o]> h) (S n) rows' in
      (h', n :: ls)
  end.

(** The callback of a fetch of the table of tab [i]:
    [self._setData(rows, clear=clr)]. *)
Definition arrive (w : World) (i : nat) (rows : list Obj) (clr : bool) : World :=
  match tabs (page w) !! i with
  | None => w
  | Some tab =>
      let '(h1, ls) := alloc (heap w) (next w) rows in
      let '(h2, t2) :=
        TableM._setData (call (searcher (page w))) key_lt
          (getFieldOf (Data_tab tab)) h1 (table tab) ls clr in
      {| heap := h2; next := (next w + List.length rows)%nat; store := store w;
         page := set_tabs (<[i := set_table t2 tab]> (tabs (page w))) (page w) |}
  end.

(** [Tabs.searchAll()]; [text] is the value of the search box. *)
Definition searchAll (w : World) (text : option string) : World :=
  let s := SearcherM.setSearch (searcher (page w)) text in
  let p1 := set_searcher s (page w) in
  let tabs' :=
    map (fun tab =>
           set_table
             (TableM.setFilter same (call s) key_lt
                (getFieldOf (Data_tab tab)) (heap w) (table tab)
                (Some searcher_search)) tab)
        (tabs p1) in
  {| heap := heap w; next := next w; store := store w;
     page := set_tabs tabs' p1 |}.

(** [Tabs.currentTab()]; [active] is the [data-tab] of the active menu
    item. *)
Definition currentTab (p : Tabs) (active : option string) : option Tab :=
  match active with
  | None => None
  | Some d => List.find (fun tab => String.eqb (Data_tab tab) d) (tabs p)
  end.

(** [Tabs.searchCurrent()].  With a text and no current tab,
    [current.Data_tab] raises at the first tab, after [setSearch]. *)
Definition searchCurrent (w : World) (text : option string)
    (active : option string) : World :=
  let s := SearcherM.setSearch (searcher (page w)) text in
  let p1 := set_searcher s (page w) in
  let truthy := match text with Some (String _ _) => true | _ => false end in
  let setF (tab : Tab) (f : option Method) :=
    set_table
      (TableM.setFilter same (call s) key_lt
         (getFieldOf (Data_tab tab)) (heap w) (table tab) f) tab in
  match truthy, currentTab p1 active with
  | true, None =>
      {| heap := heap w; next := next w; store := store w; page := p1 |}
  | _, current =>
      let tabs' :=
        map (fun tab =>
               match current with
               | Some cur =>
                   if truthy && String.eqb (Data_tab tab) (Data_tab cur)
                   then setF tab (Some searcher_search)
                   else setF tab None
               | None => setF tab None
               end)
            (tabs p1) in
      {| heap := heap w; next := next w; store := store w;
         page := set_tabs tabs' p1 |}
  end.

(** A click on the header of field [f] of the table of tab [i]. *)
Definition click_header (w : World) (i : nat) (f : Field) : World :=
  match tabs (page w) !! i with
  | None => w
  | Some tab =>
      let t' := TableM.setSort key_lt (getFieldOf (Data_tab tab))
                  (heap w) (table tab) f in
      {| heap := heap w; next := next w; store := store w;
         page := set_tabs (<[i := set_table t' tab]> (tabs (page w))) (page w) |}
  end.

(** A click on a row of the table of tab [i]; the view has a row for each
    object of [_shownData] and no other. *)
Definition click_row (w : World) (i : nat) (obj : loc) : World :=
  match tabs (page w) !! i with
  | None => w
  | Some tab =>
      if bool_decide (obj ∈ TableM._shownData (table tab))
      then
        let '(h', t') := TableM._selectRow quote number
                           (heap w) (table tab) obj in
        {| heap := h'; next := next w; store := store w;
           page := set_tabs (<[i := set_table t' tab]> (tabs (page w))) (page w) |}
      else w
  end.

Definition step (w : World) (e : Event) : World :=
  match e with
  | EvRefresh => (refresh w).1
  | EvSettle p ok => settle w p ok
  | EvArrive i rows clr => arrive w i rows clr
  | EvSearchAll text => searchAll w text
  | EvSearchCurrent text active => searchCurrent w text active
  | EvSetSort i f => click_header w i f
  | EvSelectRow i obj => click_row w i obj
  end.

(** [Tabs.__init__]: the page as it starts, the first refresh under
    way. *)
Definition init : World :=
  (refresh {| heap := ∅; next := 0; store := []; page := new_tabs |}).1.

Definition run (w : World) (es : list Event) : World := foldl step w es.

(** The states the page reaches. *)
Definition reachable (w : World) : Prop := ∃ es, w = run init es.

End Tabs.
End TabsM.

(** ** Scenarios *)

Module Scenario.

(** A table of the base class with no filter installed: its callables are
    never called. *)
Definition same (f g : TabsM.Method) : bool := true.
Definition call : TabsM.Method -> Obj -> bool := TabsM.call SearcherM.init.

(** [DateField()] *)
Definition dateField : Field := TabsM.new_field CDateField None None.

(** The rows [{uid:"a",date:1}], [{uid:"b",date:3}], [{uid:"c",date:2}] as
    the server delivers them. *)
Definition date_rows : list Obj :=
  [ [("uid", VStr "a"); ("date", VNum 1)];
    [("uid", VStr "b"); ("date", VNum 3)];
    [("uid", VStr "c"); ("date", VNum 2)] ].

(** A table that was given [rows] by [_setData]. *)
Definition loaded (fs : list Field) (rows : list Obj) : Heap * TabsM.Table :=
  let '(h, ls) := TabsM.alloc ∅ 0 rows in
  TableM._setData call value_lt (TableM._getField) h
    (TableM.init TabsM.Method fs) ls true.

(** Three agents and two things, as the two fetches of the entities table
    deliver them. *)
Definition entity_rows : list Obj :=
  [ [("did", VStr "did:igo:A1"); ("hid", VStr "hid:a1")];
    [("did", VStr "did:igo:A2"); ("hid", VStr "hid:a2")];
    [("did", VStr "did:igo:A3"); ("hid", VStr "hid:a3")];
    [("did", VStr "did:igo:T1"); ("hid", VStr "hid:t1")];
    [("did", VStr "did:igo:T2"); ("hid", VStr "hid:t2")] ].

Definition entity_heap : Heap := (TabsM.alloc ∅ 0 entity_rows).1.

Definition entities_table : TabsM.Table :=
  TableM.init TabsM.Method TabsM.EntitiesTable_fields.

(** The serialisers of the runtime on the strings and numbers of these
    scenarios, which have no character to escape. *)
Definition quote (s : string) : string := PyStr.dquote +:+ s +:+ PyStr.dquote.
Definition number (n : Z) : string := NilEmpty.string_of_int (Z.to_int n).

(** The table of the three dated rows, and the same with its first row
    selected. *)
Definition dated : Heap * TabsM.Table := loaded [dateField] date_rows.
Definition dated_selected : Heap * TabsM.Table :=
  TableM._selectRow quote number dated.1 dated.2 0%nat.

(** Two rows that differ on [a] and agree on [b], and their table. *)
Definition aField : Field := TabsM.new_field CField (Some "A") None.
Definition bField : Field := TabsM.new_field CField (Some "B") None.

Definition tie_rows : list Obj :=
  [ [("a", VNum 2); ("b", VNum 1)];
    [("a", VNum 1); ("b", VNum 1)] ].

Definition tied : Heap * TabsM.Table := loaded [aField; bField] tie_rows.

(** The [uid]s of the shown rows, in their order. *)
Definition shown_uids (h : Heap) (t : TabsM.Table) : list (option Value) :=
  map (fun l => read h l "uid") (TableM._shownData t).

(** The page after the issuants have arrived, one of them without a string
    in it. *)
Definition getFieldOf (d : string) : Obj -> Field -> option Value :=
  TableM._getField.

Definition mixed_rows : list Obj :=
  [ [("did", VStr "did:igo:I1"); ("kind", VStr "agent")];
    [("count", VNum 7)] ].

Definition loaded_page : TabsM.World :=
  TabsM.run same value_lt getFieldOf quote number
    (TabsM.init) [TabsM.EvArrive 1 mixed_rows true].

End Scenario.

(** ** Dummy data *)

(** ["test{0} {1}".format(i, field.name)] *)
Definition dummy_text (i : nat) (name : string) : string :=
  "test" +:+ PyStr.of_nat i +:+ " " +:+ name.

(** The inner loop of [Table._makeDummyData]: the object of index [i]. *)
Definition dummy_obj (fs : list Field) (i : nat) : Obj :=
  foldl (fun obj field =>
           set_attr (name field) (VStr (dummy_text i (name field))) obj)
        [] fs.

(** [Table._makeDummyData(count)] *)
Definition _makeDummyData {Callable : Type} (t : TableM.Table Callable)
    (count : nat) : list Obj :=
  map (dummy_obj (TableM.fields t)) (seq 0 count).

(** ** The view of a table *)

(** What a click on an element of the view calls: [self.setSort(f)] from a
    header, [self._selectRow(event, o)] from a row. *)
Inductive Handler : Type :=
| OnSetSort (f : Field)
| OnSelectRow (obj : loc).

(** The vnode [m(selector, attrs, children)] of the view of a table: a
    text, the cell that [Field.view] made, or an element with its
    [onclick], if it has one. *)
Inductive Node : Type :=
| Text (s : string)
| Cell (v : VNode)
| Elem (selector : string) (attrs : list (string * string))
       (onclick : option Handler) (children : list Node).

(** An exception ends the call it is raised in and every call around
    it. *)
#[global] Instance Result_ret : MRet Result := @Ok.
#[global] Instance Result_bind : MBind Result :=
  fun A B k r => match r with Ok a => k a | Raise e => Raise e end.

Module ViewM.
Section View.

Context {Callable : Type}.
Variable getField : Obj -> Field -> option Value.
Variable repr : Value -> string.
Variable toISOString : Z -> string.

Local Abbreviation Table := (TableM.Table Callable).

(** [Table.no_results_text] *)
Definition no_results_text : string := "No results found.".

(** [Table._limitText()] *)
Definition _limitText (t : Table) : string :=
  "Limited to " +:+ PyStr.of_nat (TableM.max_size t) +:+ " results.".

(** The list comprehension of [_makeRow] over the fields [fs]. *)
Fixpoint cells (obj : Obj) (fs : list Field) : Result (list VNode) :=
  match fs with
  | [] => mret []
  | field :: fs' =>
      node ← FieldM.view repr toISOString field (getField obj field);
      nodes ← cells obj fs';
      mret (node :: nodes)
  end.

(** [Table._makeRow(obj)] *)
Definition _makeRow (t : Table) (obj : Obj) : Result (list VNode) :=
  cells obj (TableM.fields t).

(** The header of a field: the body of the first loop of [_view]. *)
Definition header (t : Table) (field : Field) : Node :=
  if decide (Some field = TableM.sortField t)
  then
    let icon :=
      if TableM.reversed t
      then Elem "i.arrow.down.icon" [] None []
      else Elem "i.arrow.up.icon" [] None [] in
    Elem "th.ui.right.labeled.icon" [] (Some (OnSetSort field))
      [icon; Text (title field)]
  else Elem "th" [] (Some (OnSetSort field)) [Text (title field)].

(** The second loop of [_view], over the shown rows [objs]. *)
Fixpoint rows (h : Heap) (t : Table) (objs : list loc) : Result (list Node) :=
  match objs with
  | [] => mret []
  | obj :: objs' =>
      row ← _makeRow t (deref h obj);
      let tr :=
        if flagged h obj
        then Elem "tr.active" [] (Some (OnSelectRow obj)) (map Cell row)
        else Elem "tr" [] (Some (OnSelectRow obj)) (map Cell row) in
      trs ← rows h t objs';
      mret (tr :: trs)
  end.

(** The rows that [_view] appends after those of the data. *)
Definition notices (t : Table) : list Node :=
  (if (TableM.max_size t <=? TableM.shown t)%nat
   then [Elem "tr" [] None [Elem "td" [] None [Text (_limitText t)]]]
   else [])
  ++ (if (TableM.shown t =? 0)%nat
      then [Elem "tr" [] None [Elem "td" [] None [Text no_results_text]]]
      else []).

(** [Table._view()] *)
Definition _view (h : Heap) (t : Table) : Result Node :=
  let headers := map (header t) (TableM.fields t) in
  trs ← rows h t (TableM._shownData t);
  mret (Elem "table"
          [("class",
            "ui selectable celled unstackable single line left aligned table")]
          None
          [ Elem "thead" [] None
              [Elem "tr" [("class", "center aligned")] None headers];
            Elem "tbody" [] None (trs ++ notices t) ]).

End View.
End ViewM.

(** The elements of a vnode in document order, each with its selector and
    its [onclick]. *)
Fixpoint elems (n : Node) : list (string * option Handler) :=
  match n with
  | Elem sel _ click children =>
      (sel, click)
      :: (fix go (l : list Node) : list (string * option Handler) :=
            match l with
            | [] => []
            | x :: l' => elems x ++ go l'
            end) children
  | _ => []
  end.

(** The texts of a vnode in document order, those of the data cells
    apart. *)
Fixpoint texts (n : Node) : list string :=
  match n with
  | Text s => [s]
  | Cell _ => []
  | Elem _ _ _ children =>
      (fix go (l : list Node) : list string :=
         match l with
         | [] => []
         | x :: l' => texts x ++ go l'
         end) children
  end.

(** What a click can call: the handlers of the elements, and those of the
    elements of one selector. *)
Definition handlers (n : Node) : list Handler := omap snd (elems n).

Definition handlers_of (sel : string) (n : Node) : list Handler :=
  omap (fun e => if String.eqb e.1 sel then e.2 else None) (elems n).

(** The element of a shown row. *)
Definition tr_of (h : Heap) (obj : loc) : string * option Handler :=
  (if flagged h obj then "tr.active" else "tr", Some (OnSelectRow obj)).

(** ** Further vocabulary *)

(** The two counters of a table count its two lists. *)
Definition counted {Callable : Type} (t : TableM.Table Callable) : Prop :=
  TableM.total t = List.length (TableM.data t)
  ∧ TableM.shown t = List.length (TableM._shownData t).

(** The id of each row of a table is its position in [data]. *)
Definition ids_are_positions {Callable : Type} (h : Heap)
    (t : TableM.Table Callable) : Prop :=
  ∀ i l, TableM.data t !! i = Some l →
         read h l "_uid" = Some (VNum (Z.of_nat i)).

(** A tab whose table counts its rows, holds distinct objects that the heap
    has handed out, and has given each its position as its id. *)
Definition tab_numbered (h : Heap) (n : nat) (tab : TabsM.Tab) : Prop :=
  counted (TabsM.table tab)
  ∧ NoDup (TableM.data (TabsM.table tab))
  ∧ ids_are_positions h (TabsM.table tab)
  ∧ ∀ l, l ∈ TableM.data (TabsM.table tab) → (l < n)%nat.

Definition numbered (w : TabsM.World) : Prop :=
  Forall (tab_numbered (TabsM.heap w) (TabsM.next w))
    (TabsM.tabs (TabsM.page w)).

(* ===================================================================== *)
(** * Part II: what the program does *)
(* ===================================================================== *)

(** ** The shown rows of a table *)

Section ShownRows.

Context {Callable : Type}.
Variable call : Callable -> Obj -> bool.

Lemma process_loop_spec (m : nat) (flt : option Callable) (h : Heap)
    (rest acc : list loc) (n : nat) :
  TableM.process_loop call m flt h rest acc n =
    (acc ++ take (m - n) (List.filter (TableM.accepted call h flt) rest),
     (n + List.length (take (m - n) (List.filter (TableM.accepted call h flt) rest)))%nat).
Proof.
  revert acc n. induction rest as [|obj rest IH]; intros acc n; simpl.
  - rewrite take_nil, app_nil_r. f_equal. simpl. lia.
  - destruct (Nat.leb_spec m n) as [Hle|Hlt].
    + replace (m - n)%nat with 0%nat by lia.
      rewrite !take_0, app_nil_r. f_equal. simpl. lia.
    + assert (Hstep : (m - n = S (m - S n))%nat) by lia.
      assert (Hin : ∀ l : list loc,
                acc ++ take (m - n) (obj :: l) = (acc ++ [obj]) ++ take (m - S n) l).
      { intros l. rewrite Hstep. simpl. by rewrite <- app_assoc. }
      assert (Hlen : ∀ l : list loc,
                (n + List.length (take (m - n) (obj :: l)) =
                 S n + List.length (take (m - S n) l))%nat).
      { intros l. rewrite Hstep. simpl. lia. }
      destruct flt as [f|].
      * change (TableM.accepted call h (Some f) obj) with (call f (deref h obj)).
        destruct (call f (deref h obj)); simpl; rewrite IH.
        -- by rewrite Hin, Hlen.
        -- done.
      * change (TableM.accepted call h None obj) with true. cbv iota.
        rewrite IH. by rewrite Hin, Hlen.
Qed.

Lemma process_pass_spec (h : Heap) (t : TableM.Table Callable) :
  let t' := TableM.process_pass call h t in
  TableM._shownData t' =
    take (TableM.max_size t)
      (List.filter (TableM.accepted call h (TableM.filter t)) (TableM.data t))
  ∧ TableM.shown t' = List.length (TableM._shownData t').
Proof.
  unfold TableM.process_pass. rewrite process_loop_spec. simpl.
  rewrite Nat.sub_0_r. auto.
Qed.

(** C1.  After the pass of [_processData] that precedes the sort, the shown
    rows are the rows of [data] the filter accepts (all of them without a
    filter), in the order of [data], cut after the first [max_size] of
    them, and [shown] is their number; [max_size] is the [1000] the
    constructor set, which the pass keeps. *)
Theorem processData_shown_prefix (h : Heap) (t : TableM.Table Callable)
    (fs : list Field) :
  let t' := TableM.process_pass call h t in
  TableM._shownData t' =
    take (TableM.max_size t)
      (List.filter (TableM.accepted call h (TableM.filter t)) (TableM.data t))
  ∧ TableM.shown t' = List.length (TableM._shownData t')
  ∧ TableM.max_size t' = TableM.max_size t
  ∧ TableM.max_size (TableM.init Callable fs) = 1000%nat.
Proof.
  destruct (process_pass_spec h t) as [Hs Hn]. cbv zeta in *.
  split_and!; [exact Hs|exact Hn| |reflexivity].
  unfold TableM.process_pass.
  by destruct (TableM.process_loop _ _ _ _ _ _ _).
Qed.

End ShownRows.

(** ** list.sort: a stable sort *)

Section SortFacts.

Context {A K : Type}.
Variable lt : K -> K -> bool.
Variable key : A -> K.

Lemma insert_perm (x : A) (l : list A) : PySort.insert lt key x l ≡ₚ x :: l.
Proof.
  induction l as [|y l IH]; simpl; [done|].
  destruct (lt (key y) (key x)); [|done].
  rewrite IH. apply Permutation_swap.
Qed.

Lemma stable_sort_perm (l : list A) : PySort.stable_sort lt key l ≡ₚ l.
Proof.
  induction l as [|x l IH]; simpl; [done|].
  rewrite insert_perm. by rewrite IH.
Qed.

Lemma sort_perm (r : bool) (l : list A) : PySort.sort lt key r l ≡ₚ l.
Proof.
  unfold PySort.sort. destruct r; [|apply stable_sort_perm].
  rewrite <- Permutation_rev, stable_sort_perm. symmetry. apply Permutation_rev.
Qed.

Section Stable.

(** A class of elements of one key: the sort leaves such a class in the
    order it found it. *)
Variable P : A -> bool.
Hypothesis lt_irrefl : ∀ k, lt k k = false.
Hypothesis P_one_key : ∀ x y, P x = true → P y = true → key x = key y.

Lemma insert_filter (x : A) (l : list A) :
  List.filter P (PySort.insert lt key x l) = List.filter P (x :: l).
Proof.
  induction l as [|y l IH]; [done|].
  simpl PySort.insert. destruct (lt (key y) (key x)) eqn:Hlt; [|done].
  simpl in *. rewrite IH.
  destruct (P x) eqn:Hx, (P y) eqn:Hy; try done.
  rewrite (P_one_key x y Hx Hy), lt_irrefl in Hlt. done.
Qed.

Lemma stable_sort_filter (l : list A) :
  List.filter P (PySort.stable_sort lt key l) = List.filter P l.
Proof.
  induction l as [|x l IH]; [done|].
  simpl PySort.stable_sort. rewrite insert_filter. simpl. by rewrite IH.
Qed.

Lemma sort_filter (r : bool) (l : list A) :
  List.filter P (PySort.sort lt key r l) = List.filter P l.
Proof.
  unfold PySort.sort. destruct r; [|apply stable_sort_filter].
  rewrite filter_rev, stable_sort_filter, filter_rev. apply rev_involutive.
Qed.

End Stable.

Section Ordered.

Hypothesis lt_asym : ∀ a b, lt a b = true → lt b a = false.

Lemma insert_sorted (x : A) (l : list A) :
  Sorted (PySort.ascending lt key) l → Sorted (PySort.ascending lt key) (PySort.insert lt key x l).
Proof.
  induction l as [|y l IH]; intros Hs; simpl.
  - repeat constructor.
  - destruct (lt (key y) (key x)) eqn:Hlt.
    + apply Sorted_inv in Hs as [Hs Hhd]. constructor; [by apply IH|].
      destruct l as [|z l]; simpl.
      * constructor. unfold PySort.ascending. by apply lt_asym.
      * destruct (lt (key z) (key x)).
        -- constructor. by apply HdRel_inv in Hhd.
        -- constructor. unfold PySort.ascending. by apply lt_asym.
    + constructor; [done|]. constructor. done.
Qed.

Lemma stable_sort_sorted (l : list A) :
  Sorted (PySort.ascending lt key) (PySort.stable_sort lt key l).
Proof.
  induction l as [|x l IH]; simpl; [constructor|by apply insert_sorted].
Qed.

Lemma sort_sorted (r : bool) (l : list A) :
  Sorted (if r then flip (PySort.ascending lt key) else PySort.ascending lt key) (PySort.sort lt key r l).
Proof.
  unfold PySort.sort. destruct r; [|apply stable_sort_sorted].
  rewrite rev_alt. apply (Sorted_reverse (PySort.ascending lt key)), stable_sort_sorted.
Qed.

End Ordered.

End SortFacts.

Lemma value_lt_asym (a b : option Value) :
  value_lt a b = true → value_lt b a = false.
Proof.
  destruct a as [[| |x|x| |]|], b as [[| |y|y| |]|]; cbn [value_lt]; try done.
  - rewrite Z.ltb_lt, Z.ltb_ge. lia.
  - unfold String.ltb. rewrite (String.compare_antisym y x).
    by destruct (String.compare x y).
Qed.

Lemma filter_sublist {A : Type} (P : A → bool) (l : list A) :
  sublist (List.filter P l) l.
Proof.
  induction l as [|x l IH]; simpl; [constructor|].
  destruct (P x); by constructor.
Qed.

(** ** Sorting a table *)

Section SetSort.

Context {Callable : Type}.
Variable key_lt : option Value -> option Value -> bool.
Variable getField : Obj -> Field -> option Value.

Lemma sortData_shown (h : Heap) (t : TableM.Table Callable) (F : Field) :
  TableM.sortField t = Some F →
  TableM._shownData (TableM._sortData key_lt getField h t) =
    PySort.sort key_lt (fun obj => getField (deref h obj) F)
      (TableM.reversed t) (TableM._shownData t).
Proof. intros HF. unfold TableM._sortData. by rewrite HF. Qed.

Lemma sortData_frame (h : Heap) (t : TableM.Table Callable) :
  let t' := TableM._sortData key_lt getField h t in
  TableM.sortField t' = TableM.sortField t
  ∧ TableM.reversed t' = TableM.reversed t
  ∧ TableM.data t' = TableM.data t
  ∧ TableM.shown t' = TableM.shown t
  ∧ TableM.total t' = TableM.total t
  ∧ TableM.max_size t' = TableM.max_size t
  ∧ TableM.filter t' = TableM.filter t
  ∧ TableM._selected t' = TableM._selected t
  ∧ TableM.detailSelected t' = TableM.detailSelected t.
Proof.
  cbv zeta. unfold TableM._sortData.
  destruct (TableM.sortField t) eqn:E; simpl; rewrite ?E; auto 10.
Qed.

Lemma sortData_perm (h : Heap) (t : TableM.Table Callable) :
  TableM._shownData (TableM._sortData key_lt getField h t) ≡ₚ TableM._shownData t.
Proof.
  unfold TableM._sortData. destruct (TableM.sortField t); [|done].
  apply sort_perm.
Qed.


End SetSort.



(** ** Objects and the heap *)

Lemma get_set_attr_eq (k : string) (v : Value) (o : Obj) :
  get_attr k (set_attr k v o) = Some v.
Proof.
  induction o as [|[k' w] o IH]; simpl.
  - by rewrite String.eqb_refl.
  - destruct (String.eqb k' k) eqn:E; simpl; by rewrite E.
Qed.

Lemma get_set_attr_ne (k k' : string) (v : Value) (o : Obj) :
  k ≠ k' → get_attr k' (set_attr k v o) = get_attr k' o.
Proof.
  intros Hne. induction o as [|[k0 w] o IH]; simpl.
  - destruct (String.eqb k k') eqn:E; [|done].
    by apply String.eqb_eq in E.
  - destruct (String.eqb k0 k) eqn:E; simpl.
    + apply String.eqb_eq in E as ->.
      destruct (String.eqb k k') eqn:E'; [|done].
      by apply String.eqb_eq in E'.
    + by rewrite IH.
Qed.

Lemma get_del_attr_eq (k : string) (o : Obj) : get_attr k (del_attr k o) = None.
Proof.
  induction o as [|[k' w] o IH]; simpl; [done|].
  destruct (String.eqb k' k) eqn:E; simpl; [done|]. by rewrite E.
Qed.

Lemma get_del_attr_ne (k k' : string) (o : Obj) :
  k ≠ k' → get_attr k' (del_attr k o) = get_attr k' o.
Proof.
  intros Hne. induction o as [|[k0 w] o IH]; simpl; [done|].
  destruct (String.eqb k0 k) eqn:E; simpl.
  - apply String.eqb_eq in E as ->.
    destruct (String.eqb k k') eqn:E'; [|done].
    by apply String.eqb_eq in E'.
  - by rewrite IH.
Qed.

Lemma deref_write_eq (h : Heap) (l : loc) (k : string) (v : Value) :
  deref (write h l k v) l = set_attr k v (deref h l).
Proof. unfold deref at 1, write. by rewrite lookup_insert_eq. Qed.

Lemma deref_write_ne (h : Heap) (l l' : loc) (k : string) (v : Value) :
  l ≠ l' → deref (write h l k v) l' = deref h l'.
Proof. intros. unfold deref, write. by rewrite lookup_insert_ne. Qed.

Lemma deref_delete_eq (h : Heap) (l : loc) (k : string) :
  deref (delete_key h l k) l = del_attr k (deref h l).
Proof. unfold deref at 1, delete_key. by rewrite lookup_insert_eq. Qed.

Lemma deref_delete_ne (h : Heap) (l l' : loc) (k : string) :
  l ≠ l' → deref (delete_key h l k) l' = deref h l'.
Proof. intros. unfold deref, delete_key. by rewrite lookup_insert_ne. Qed.

Lemma read_write_eq (h : Heap) (l : loc) (k : string) (v : Value) :
  read (write h l k v) l k = Some v.
Proof. unfold read. by rewrite deref_write_eq, get_set_attr_eq. Qed.

Lemma read_write_other (h : Heap) (l l' : loc) (k k' : string) (v : Value) :
  l ≠ l' ∨ k ≠ k' → read (write h l k v) l' k' = read h l' k'.
Proof.
  intros Hne. unfold read. destruct (decide (l = l')) as [->|Hl].
  - destruct Hne as [|Hk]; [done|]. by rewrite deref_write_eq, get_set_attr_ne.
  - by rewrite deref_write_ne.
Qed.

Lemma read_delete_eq (h : Heap) (l : loc) (k : string) :
  read (delete_key h l k) l k = None.
Proof. unfold read. by rewrite deref_delete_eq, get_del_attr_eq. Qed.

Lemma read_delete_other (h : Heap) (l l' : loc) (k k' : string) :
  l ≠ l' ∨ k ≠ k' → read (delete_key h l k) l' k' = read h l' k'.
Proof.
  intros Hne. unfold read. destruct (decide (l = l')) as [->|Hl].
  - destruct Hne as [|Hk]; [done|]. by rewrite deref_delete_eq, get_del_attr_ne.
  - by rewrite deref_delete_ne.
Qed.

(** ** Loading rows into a table *)

Section SetData.

Context {Callable : Type}.
Implicit Types (h : Heap) (t : TableM.Table Callable) (rows : list loc).

Lemma foldl_add_datum h t rows :
  let ht := foldl TableM.add_datum (h, t) rows in
  TableM.data ht.2 = TableM.data t ++ rows
  ∧ TableM.total ht.2 = (TableM.total t + List.length rows)%nat
  ∧ TableM.same_settings t ht.2
  ∧ (∀ l k, l ∉ rows ∨ k ≠ "_uid" → read ht.1 l k = read h l k)
  ∧ (NoDup rows → ∀ i l, rows !! i = Some l →
       read ht.1 l "_uid" = Some (VNum (Z.of_nat (TableM.total t + i)))).
Proof.
  revert h t. induction rows as [|r rows IH]; intros h t; cbv zeta.
  - simpl. rewrite app_nil_r, Nat.add_0_r.
    split_and!; done.
  - cbn [foldl].
    change (TableM.add_datum (h, t) r) with
      (write h r "_uid" (VNum (Z.of_nat (TableM.total t))),
       TableM.set_total (TableM.total t + 1)
         (TableM.set_data (TableM.data t ++ [r]) t)).
    set (h1 := write h r "_uid" (VNum (Z.of_nat (TableM.total t)))).
    set (t1 := TableM.set_total _ _).
    destruct (IH h1 t1) as (Hd & Htot & Hs & Hfr & Hid).
    split_and!.
    + rewrite Hd. subst t1. simpl. by rewrite <- app_assoc.
    + rewrite Htot. subst t1. simpl. lia.
    + destruct Hs as (?&?&?&?&?&?&?&?&?). by repeat split.
    + intros l k Hlk. rewrite Hfr.
      * subst h1. apply read_write_other.
        destruct Hlk as [Hl|Hk]; [left|by right].
        intros ->. apply Hl. by left.
      * destruct Hlk as [Hl|Hk]; [left|by right].
        intros Hin. apply Hl. by right.
    + intros Hnd i l Hil. apply NoDup_cons in Hnd as [Hr Hnd].
      destruct i as [|i]; simpl in Hil.
      * injection Hil as <-. rewrite Hfr by by left.
        subst h1. rewrite read_write_eq. by rewrite Nat.add_0_r.
      * rewrite (Hid Hnd i l Hil). subst t1. simpl. do 3 f_equal. lia.
Qed.

End SetData.

Section ProcessData.

Context {Callable : Type}.
Variable call : Callable -> Obj -> bool.
Variable key_lt : option Value -> option Value -> bool.
Variable getField : Obj -> Field -> option Value.
Implicit Types (h : Heap) (t : TableM.Table Callable) (rows : list loc).

Lemma process_pass_frame h t : TableM.same_rows t (TableM.process_pass call h t).
Proof.
  unfold TableM.process_pass. destruct (TableM.process_loop _ _ _ _ _ _ _).
  by repeat split.
Qed.

Lemma sortData_same_rows h t :
  TableM.same_rows t (TableM._sortData key_lt getField h t).
Proof.
  destruct (sortData_frame key_lt getField h t) as (?&?&?&?&?&?&?&?&?).
  unfold TableM.same_rows, TableM._sortData in *.
  destruct (TableM.sortField t); by repeat split.
Qed.

Lemma processData_frame h t :
  TableM.same_rows t (TableM._processData call key_lt getField h t).
Proof.
  unfold TableM._processData.
  destruct (process_pass_frame h t) as (?&?&?&?&?&?&?&?&?).
  destruct (sortData_same_rows h (TableM.process_pass call h t))
    as (?&?&?&?&?&?&?&?&?).
  repeat split; congruence.
Qed.

(** The shown rows after [_processData], up to the order the sort gives
    them, and their number. *)
Lemma processData_shown h t :
  let t' := TableM._processData call key_lt getField h t in
  TableM._shownData t' ≡ₚ
    take (TableM.max_size t)
      (List.filter (TableM.accepted call h (TableM.filter t)) (TableM.data t))
  ∧ TableM.shown t' = List.length (TableM._shownData t').
Proof.
  cbv zeta. unfold TableM._processData.
  destruct (process_pass_spec call h t) as (Hs & Hn).
  destruct (sortData_frame key_lt getField h (TableM.process_pass call h t))
    as (_ & _ & _ & Hshown & _).
  pose proof (sortData_perm key_lt getField h (TableM.process_pass call h t)) as Hp.
  split.
  - by rewrite Hp, Hs.
  - rewrite Hshown, Hn. by rewrite Hp.
Qed.

Lemma setData_unfold h t rows clr :
  TableM._setData call key_lt getField h t rows clr =
    ((TableM.add_data h t rows clr).1,
     TableM._processData call key_lt getField (TableM.add_data h t rows clr).1
       (TableM.add_data h t rows clr).2).
Proof. unfold TableM._setData. by destruct (TableM.add_data h t rows clr). Qed.

(** What [_setData] leaves of a table and of the heap. *)
Lemma setData_spec h t rows clr :
  let ht := TableM._setData call key_lt getField h t rows clr in
  let start := if clr then 0%nat else TableM.total t in
  TableM.data ht.2 = (if clr then [] else TableM.data t) ++ rows
  ∧ TableM.total ht.2 = (start + List.length rows)%nat
  ∧ (∀ l k, l ∉ rows ∨ k ≠ "_uid" → read ht.1 l k = read h l k)
  ∧ (NoDup rows → ∀ i l, rows !! i = Some l →
       read ht.1 l "_uid" = Some (VNum (Z.of_nat (start + i))))
  ∧ TableM.max_size ht.2 = TableM.max_size t
  ∧ TableM.filter ht.2 = TableM.filter t
  ∧ TableM.sortField ht.2 = TableM.sortField t
  ∧ TableM.reversed ht.2 = TableM.reversed t
  ∧ TableM._selected ht.2 = TableM._selected t
  ∧ TableM.detailSelected ht.2 = TableM.detailSelected t.
Proof.
  cbv zeta. rewrite setData_unfold. unfold TableM.add_data.
  set (t0 := if clr then TableM.clear t else t).
  destruct (foldl_add_datum h t0 rows) as (Hd & Ht & Hs & Hfr & Hid).
  cbv zeta in *.
  set (ht := foldl TableM.add_datum (h, t0) rows) in *.
  destruct (processData_frame ht.1 ht.2) as (Hm&_&Hd'&Hsel&Hdet&Hf&Hsf&Hr&Htot).
  destruct Hs as (Hm0&_&_&Hsel0&Hdet0&Hf0&Hsf0&Hr0&_).
  cbn [fst snd].
  assert (Ht0 : TableM.data t0 = (if clr then [] else TableM.data t)
                ∧ TableM.total t0 = (if clr then 0%nat else TableM.total t)
                ∧ TableM.max_size t0 = TableM.max_size t
                ∧ TableM.filter t0 = TableM.filter t
                ∧ TableM.sortField t0 = TableM.sortField t
                ∧ TableM.reversed t0 = TableM.reversed t
                ∧ TableM._selected t0 = TableM._selected t
                ∧ TableM.detailSelected t0 = TableM.detailSelected t).
  { subst t0. by destruct clr. }
  destruct Ht0 as (E1&E2&E3&E4&E5&E6&E7&E8).
  split_and!; try congruence; try exact Hfr.
  intros Hnd i l Hil. rewrite (Hid Hnd i l Hil). by rewrite E2.
Qed.

(** The shown rows after [_setData]: derived from the rows the table then
    holds, as they are in the heap then. *)
Lemma setData_shown h t rows clr :
  let ht := TableM._setData call key_lt getField h t rows clr in
  TableM._shownData ht.2 ≡ₚ
    take (TableM.max_size t)
      (List.filter (TableM.accepted call ht.1 (TableM.filter t))
         ((if clr then [] else TableM.data t) ++ rows))
  ∧ TableM.shown ht.2 = List.length (TableM._shownData ht.2).
Proof.
  cbv zeta. rewrite setData_unfold. cbn [fst snd].
  set (a := TableM.add_data h t rows clr).
  pose proof (processData_shown a.1 a.2) as Hp. cbv zeta in Hp.
  assert (Hx : TableM.data a.2 = (if clr then [] else TableM.data t) ++ rows
               ∧ TableM.max_size a.2 = TableM.max_size t
               ∧ TableM.filter a.2 = TableM.filter t).
  { subst a. unfold TableM.add_data.
    destruct (foldl_add_datum h (if clr then TableM.clear t else t) rows)
      as (Hd & _ & Hs & _).
    destruct Hs as (Hm & _ & _ & _ & _ & Hf & _). cbv zeta in *.
    rewrite Hd, Hm, Hf. by destruct clr. }
  destruct Hx as (E1 & E2 & E3). by rewrite E1, E2, E3 in Hp.
Qed.

End ProcessData.

Section Ids.

Context {Callable : Type}.
Variable call : Callable -> Obj -> bool.
Variable key_lt : option Value -> option Value -> bool.
Variable getField : Obj -> Field -> option Value.
Implicit Types (h : Heap) (t : TableM.Table Callable) (rows : list loc).

(** C8.  After a sequence of calls of [_setData] with [clear=True] the total
    is the size of the last batch, the table holds that batch, and the ids
    of its rows are [0, 1, 2, ...] in their order.  In any call, clearing or
    not, the row at index [i] of the batch is given the total of that moment
    as its id, which is the total the call started from plus [i], and the
    total then grows by one. *)
Theorem setData_clear_ids h t (batches : list (list loc)) (last : list loc)
    (Hnd : NoDup last) :
  let ht := TableM.setData_seq call key_lt getField h t (batches ++ [last]) in
  TableM.total ht.2 = List.length last
  ∧ TableM.data ht.2 = last
  ∧ (∀ i l, last !! i = Some l → read ht.1 l "_uid" = Some (VNum (Z.of_nat i)))
  ∧ (∀ h0 (t0 : TableM.Table Callable) rows clr i l,
       rows !! i = Some l →
       let before := TableM.add_data h0 t0 (take i rows) clr in
       let after := TableM.add_datum before l in
       TableM.add_data h0 t0 (take (S i) rows) clr = after
       ∧ read after.1 l "_uid" = Some (VNum (Z.of_nat (TableM.total before.2)))
       ∧ TableM.total before.2 = ((if clr then 0 else TableM.total t0) + i)%nat
       ∧ TableM.total after.2 = S (TableM.total before.2)).
Proof.
  cbv zeta. unfold TableM.setData_seq. rewrite foldl_app. cbn [foldl].
  set (prev := foldl _ (h, t) batches).
  destruct (setData_spec call key_lt getField prev.1 prev.2 last true)
    as (Hd & Ht & _ & Hid & _).
  split_and!.
  - by rewrite Ht.
  - by rewrite Hd.
  - intros i l Hil. by rewrite (Hid Hnd i l Hil).
  - intros h0 t0 rows clr i l Hil.
    rewrite (take_S_r rows i l Hil). unfold TableM.add_data.
    rewrite foldl_app. cbn [foldl].
    set (t1 := if clr then TableM.clear t0 else t0).
    destruct (foldl_add_datum h0 t1 (take i rows)) as (_ & Htot & _).
    cbv zeta in Htot.
    set (before := foldl TableM.add_datum (h0, t1) (take i rows)) in *.
    assert (Hlen : List.length (take i rows) = i).
    { rewrite length_take. apply lookup_lt_Some in Hil. lia. }
    destruct before as [hb tb] eqn:Hb. cbn [fst snd] in *.
    split_and!.
    + done.
    + apply read_write_eq.
    + rewrite Htot, Hlen. subst t1. by destruct clr.
    + simpl. lia.
Qed.

End Ids.

Lemma setData_clear_ids_witness :
  let ht := TableM.setData_seq Scenario.call value_lt TableM._getField
              (TabsM.alloc ∅ 0 Scenario.date_rows).1 (TableM.init TabsM.Method [])
              ([[2; 0]%nat] ++ [[0; 1; 2]%nat]) in
  NoDup [0; 1; 2]%nat
  ∧ TableM.total ht.2 = 3%nat
  ∧ read ht.1 2%nat "_uid" = Some (VNum 2).
Proof.
  assert (Hnd : NoDup [0; 1; 2]%nat) by (apply (bool_decide_unpack (NoDup [0; 1; 2]%nat)); vm_compute; exact I).
  pose proof (setData_clear_ids Scenario.call value_lt TableM._getField
                (TabsM.alloc ∅ 0 Scenario.date_rows).1 (TableM.init TabsM.Method [])
                [[2; 0]%nat] [0; 1; 2]%nat Hnd) as (Ht & _ & Hid & _).
  split_and!; [exact Hnd | exact Ht | exact (Hid 2%nat 2%nat eq_refl)].
Defined.

(** ** The refresh of the entities table *)

Section Entities.

Context {Callable : Type}.
Variable call : Callable -> Obj -> bool.
Variable key_lt : option Value -> option Value -> bool.
Variable getField : Obj -> Field -> option Value.
Implicit Types (h : Heap) (t : TableM.Table Callable) (rows : list loc).

(** C4, as the code has it.  A refresh of the entities table clears it and
    then takes two batches without clearing; with 3 rows and then 2 the table
    ends with a total of 5, its data are the 5 rows in the order of arrival
    and their ids are 0 to 4.  The shown rows are derived at the end of each
    of the two [_setData] calls: from the 3 rows of the first batch when it
    has arrived, and from all 5 when the second has. *)
Theorem entities_refresh_two_batches h t (b1 b2 : list loc)
    (H3 : List.length b1 = 3%nat) (H2 : List.length b2 = 2%nat)
    (Hnd : NoDup (b1 ++ b2)) :
  let t0 := TableM.entities_refresh t in
  let ht1 := TableM.entities_arrived call key_lt getField h t0 b1 in
  let ht2 := TableM.entities_arrived call key_lt getField ht1.1 ht1.2 b2 in
  TableM.total ht2.2 = 5%nat
  ∧ TableM.data ht2.2 = b1 ++ b2
  ∧ (∀ i l, (b1 ++ b2) !! i = Some l →
       read ht2.1 l "_uid" = Some (VNum (Z.of_nat i)))
  ∧ (TableM._shownData ht1.2 ≡ₚ
       take (TableM.max_size t)
         (List.filter (TableM.accepted call ht1.1 (TableM.filter t)) b1)
     ∧ TableM.shown ht1.2 = List.length (TableM._shownData ht1.2))
  ∧ (TableM._shownData ht2.2 ≡ₚ
       take (TableM.max_size t)
         (List.filter (TableM.accepted call ht2.1 (TableM.filter t)) (b1 ++ b2))
     ∧ TableM.shown ht2.2 = List.length (TableM._shownData ht2.2)).
Proof.
  cbv zeta. unfold TableM.entities_arrived, TableM.entities_refresh.
  set (t0 := TableM.clear t).
  apply NoDup_app in Hnd as (Hnd1 & Hdisj & Hnd2).
  destruct (setData_spec call key_lt getField h t0 b1 false)
    as (Hd1 & Ht1 & _ & Hid1 & Hm1 & Hf1 & _).
  cbv zeta in *.
  set (ht1 := TableM._setData call key_lt getField h t0 b1 false) in *.
  destruct (setData_spec call key_lt getField ht1.1 ht1.2 b2 false)
    as (Hd2 & Ht2 & Hfr2 & Hid2 & Hm2 & Hf2 & _).
  cbv zeta in *.
  set (ht2 := TableM._setData call key_lt getField ht1.1 ht1.2 b2 false) in *.
  assert (Hd0 : TableM.data t0 = []) by done.
  assert (Htot0 : TableM.total t0 = 0%nat) by done.
  rewrite Hd0 in Hd1. rewrite Htot0, H3 in Ht1. simpl in Hd1, Ht1.
  rewrite Hd1 in Hd2. rewrite Ht1, H2 in Ht2. simpl in Ht2.
  split; [done|]. split; [done|]. split; [|split].
  - intros i l Hil. apply lookup_app_Some in Hil as [Hil|[Hge Hil]].
    + rewrite Hfr2.
      * rewrite (Hid1 Hnd1 i l Hil). by rewrite Htot0.
      * left. apply Hdisj. by eapply list_elem_of_lookup_2.
    + rewrite (Hid2 Hnd2 _ l Hil). rewrite Ht1. do 3 f_equal. lia.
  - pose proof (setData_shown call key_lt getField h t0 b1 false) as Hp.
    cbv zeta in Hp. rewrite Hd0 in Hp. exact Hp.
  - pose proof (setData_shown call key_lt getField ht1.1 ht1.2 b2 false) as Hp.
    cbv zeta in Hp. rewrite Hd1, Hm1, Hf1 in Hp. exact Hp.
Qed.

End Entities.

Lemma entities_refresh_two_batches_witness :
  let b1 := [0; 1; 2]%nat in
  let b2 := [3; 4]%nat in
  let t0 := TableM.entities_refresh Scenario.entities_table in
  let ht1 := TableM.entities_arrived Scenario.call value_lt TableM._getField
               Scenario.entity_heap t0 b1 in
  let ht2 := TableM.entities_arrived Scenario.call value_lt TableM._getField
               ht1.1 ht1.2 b2 in
  NoDup (b1 ++ b2) ∧ TableM.total ht2.2 = 5%nat ∧ TableM.data ht2.2 = b1 ++ b2.
Proof.
  cbv zeta.
  assert (Hnd : NoDup ([0; 1; 2] ++ [3; 4])%nat).
  { apply (bool_decide_unpack (NoDup ([0; 1; 2] ++ [3; 4])%nat)).
    vm_compute. exact I. }
  pose proof (entities_refresh_two_batches Scenario.call value_lt TableM._getField
                Scenario.entity_heap Scenario.entities_table
                [0; 1; 2]%nat [3; 4]%nat eq_refl eq_refl Hnd) as (Ht & Hd & _).
  split_and!; [exact Hnd | exact Ht | exact Hd].
Defined.

(** C4, as the claim has it: the shown rows are not derived once after both
    batches; the first batch alone already changes them. *)
Lemma shown_derived_after_first_batch :
  ¬ TableM.shown_once_after_both Scenario.call value_lt TableM._getField
      Scenario.entity_heap Scenario.entities_table [0; 1; 2]%nat [3; 4]%nat.
Proof.
  unfold TableM.shown_once_after_both. cbv zeta.
  intros [_ Hshown]. vm_compute in Hshown. discriminate Hshown.
Qed.

(** ** The invariant of a table *)

Section Invariant.

Context {Callable : Type}.
Variable same : Callable -> Callable -> bool.
Variable call : Callable -> Obj -> bool.
Variable key_lt : option Value -> option Value -> bool.
Variable getField : Obj -> Field -> option Value.
Variable quote : string -> string.
Variable number : Z -> string.
Implicit Types (h : Heap) (t : TableM.Table Callable) (rows : list loc).

Lemma shown_of_data h (flt : option Callable) (m : nat) (d s : list loc) :
  s ≡ₚ take m (List.filter (TableM.accepted call h flt) d) →
  (∀ l, l ∈ s → l ∈ d) ∧ (List.length s ≤ m)%nat.
Proof.
  intros Hp. split.
  - intros l Hl. rewrite Hp in Hl. apply elem_of_take in Hl as (i & Hl & _).
    apply list_elem_of_lookup_2 in Hl. apply list_elem_of_In in Hl.
    apply filter_In in Hl as [Hl _]. by apply list_elem_of_In.
  - rewrite Hp, length_take. lia.
Qed.

Lemma processData_invariant h t :
  (∀ l, TableM._selected t = Some l → l ∈ TableM.data t) →
  TableM.invariant (TableM._processData call key_lt getField h t).
Proof.
  intros Hsel.
  destruct (processData_shown call key_lt getField h t) as [Hp Hn].
  destruct (processData_frame call key_lt getField h t)
    as (Hm & _ & Hd & Hs & _).
  destruct (shown_of_data _ _ _ _ _ Hp) as [Hsub Hlen].
  unfold TableM.invariant. rewrite Hd, Hm, Hs, Hn. done.
Qed.

Lemma setFilter_invariant h t (f : option Callable) :
  TableM.invariant t →
  TableM.invariant (TableM.setFilter same call key_lt getField h t f).
Proof.
  intros (Hsub & Hle & Hsel). unfold TableM.setFilter.
  destruct (TableM.filter_ne same f (TableM.filter t)); [|done].
  by apply processData_invariant.
Qed.

Lemma setSort_invariant h t (F : Field) :
  TableM.invariant t →
  TableM.invariant (TableM.setSort key_lt getField h t F).
Proof.
  intros (Hsub & Hle & Hsel). unfold TableM.setSort.
  set (u := if decide _ then _ else _).
  assert (Hu : TableM._shownData u = TableM._shownData t
               ∧ TableM.data u = TableM.data t
               ∧ TableM.shown u = TableM.shown t
               ∧ TableM.max_size u = TableM.max_size t
               ∧ TableM._selected u = TableM._selected t).
  { subst u. by destruct (decide _). }
  destruct Hu as (E1 & E2 & E3 & E4 & E5).
  destruct (sortData_frame key_lt getField h u) as (_&_&Hd&Hs&_&Hm&_&Hse&_).
  pose proof (sortData_perm key_lt getField h u) as Hp.
  unfold TableM.invariant. rewrite Hd, Hs, Hm, Hse, E2, E3, E4, E5.
  split_and!; [|done|done].
  intros l Hl. rewrite Hp, E1 in Hl. by apply Hsub.
Qed.

Lemma selectRow_frame h t (obj : loc) :
  let ht := TableM._selectRow quote number h t obj in
  TableM.data ht.2 = TableM.data t
  ∧ TableM._shownData ht.2 = TableM._shownData t
  ∧ TableM.shown ht.2 = TableM.shown t
  ∧ TableM.max_size ht.2 = TableM.max_size t
  ∧ TableM.total ht.2 = TableM.total t
  ∧ TableM.filter ht.2 = TableM.filter t
  ∧ TableM.sortField ht.2 = TableM.sortField t
  ∧ TableM.reversed ht.2 = TableM.reversed t
  ∧ (TableM._selected ht.2 = None ∨ TableM._selected ht.2 = Some obj).
Proof.
  cbv zeta. unfold TableM._selectRow.
  destruct (TableM._selected t) as [sel|]; [|simpl; auto 12].
  destruct (py_eq _ _); simpl; auto 12.
Qed.

Lemma selectRow_invariant h t (obj : loc) :
  obj ∈ TableM.data t →
  TableM.invariant t →
  TableM.invariant (TableM._selectRow quote number h t obj).2.
Proof.
  intros Hobj (Hsub & Hle & Hsel).
  destruct (selectRow_frame h t obj) as (Hd & Hs & Hn & Hm & _ & _ & _ & _ & Hse).
  cbv zeta in *. unfold TableM.invariant. rewrite Hd, Hs, Hn, Hm.
  split_and!; [done|done|].
  intros l Hl. destruct Hse as [Hse|Hse]; rewrite Hse in Hl; [done|].
  by injection Hl as <-.
Qed.

(** What [_setData] establishes whatever the table was. *)
Lemma setData_shown_in_data h t rows clr :
  let t' := (TableM._setData call key_lt getField h t rows clr).2 in
  (∀ l, l ∈ TableM._shownData t' → l ∈ TableM.data t')
  ∧ (TableM.shown t' ≤ TableM.max_size t')%nat
  ∧ TableM._selected t' = TableM._selected t.
Proof.
  cbv zeta.
  destruct (setData_spec call key_lt getField h t rows clr)
    as (Hd & _ & _ & _ & Hm & _ & _ & _ & Hsel & _).
  destruct (setData_shown call key_lt getField h t rows clr) as [Hp Hn].
  cbv zeta in *.
  destruct (shown_of_data _ _ _ _ _ Hp) as [Hsub Hlen].
  rewrite Hd, Hm, Hn. done.
Qed.


End Invariant.



(** ** JSON.stringify with the replacer of the table *)

Lemma Value_nested_ind (P : Value → Prop) :
  P VNull → (∀ b, P (VBool b)) → (∀ n, P (VNum n)) → (∀ s, P (VStr s)) →
  (∀ l, Forall P l → P (VList l)) →
  (∀ o, Forall (fun kv => P kv.2) o → P (VObj o)) →
  ∀ v, P v.
Proof.
  intros HN HB HZ HS HL HO. fix IH 1.
  intros [|b|n|s|l|o]; [exact HN|apply HB|apply HZ|apply HS| |].
  - apply HL. induction l as [|x l IHl]; constructor; [apply IH|apply IHl].
  - apply HO. induction o as [|[k x] o IHo]; constructor; [apply IH|apply IHo].
Qed.

Lemma index_not_private (i : nat) : private (PyStr.of_nat i) = false.
Proof.
  unfold private, PyStr.startswith, PyStr.of_nat.
  by destruct (Nat.to_uint i).
Qed.

Section Replacer.

Variable quote : string -> string.
Variable number : Z -> string.

(** Serialising with the replacer of [_stringify] is serialising the value
    without its private keys. *)
Lemma ser_replacer (gap : string) (v : Value) :
  ∀ indent,
    JSON.ser quote number TableM.replacer gap indent v =
    JSON.ser quote number (fun _ => true) gap indent (strip_private v).
Proof.
  induction v as [|b|n|s|l IH|o IH] using Value_nested_ind; intros indent;
    try done.
  - cbn [JSON.ser strip_private]. f_equal.
    generalize 0%nat as i. induction IH as [|x l Hx _ IHl]; intros i; [done|].
    cbn [map]. rewrite IHl, Hx.
    unfold TableM.replacer. fold (private (PyStr.of_nat i)).
    by rewrite index_not_private.
  - cbn [JSON.ser strip_private]. f_equal.
    induction IH as [|[k x] o Hx _ IHo]; [done|].
    cbn [flat_map fst snd]. rewrite IHo.
    unfold TableM.replacer at 1. fold (private k).
    destruct (private k); cbn [negb app flat_map fst snd]; [done|].
    by rewrite Hx.
Qed.

Lemma stringify_replacer (obj : Obj) :
  TableM._stringify quote number obj =
  JSON.stringify quote number (fun _ => true) (strip_private (VObj obj)) 2.
Proof.
  unfold TableM._stringify, JSON.stringify.
  change (TableM.replacer "") with true. cbv iota.
  by rewrite ser_replacer.
Qed.

End Replacer.

(** ** Selecting a row *)

Lemma value_eqb_refl (v : Value) : value_eqb v v = true.
Proof.
  induction v as [|b|n|s|l IH|o IH] using Value_nested_ind; simpl.
  - done.
  - by destruct b.
  - apply Z.eqb_refl.
  - apply String.eqb_refl.
  - induction IH as [|x l Hx _ IHl]; [done|]. by rewrite Hx, IHl.
  - induction IH as [|[k x] o Hx _ IHo]; [done|].
    simpl in Hx. by rewrite String.eqb_refl, Hx, IHo.
Qed.

Lemma py_eq_refl (a : option Value) : py_eq a a = true.
Proof. destruct a; [apply value_eqb_refl|done]. Qed.

Lemma flagged_write (h : Heap) (obj l : loc) :
  flagged (write h obj "_selected" (VBool true)) l =
    if decide (l = obj) then true else flagged h l.
Proof.
  unfold flagged. destruct (decide (l = obj)) as [->|Hne].
  - by rewrite read_write_eq.
  - rewrite read_write_other; [done|]. left. congruence.
Qed.

Lemma flagged_delete (h : Heap) (sel l : loc) :
  flagged (delete_key h sel "_selected") l =
    if decide (l = sel) then false else flagged h l.
Proof.
  unfold flagged. destruct (decide (l = sel)) as [->|Hne].
  - by rewrite read_delete_eq.
  - rewrite read_delete_other; [done|]. left. congruence.
Qed.

Section SelectRow.

Context {Callable : Type}.
Variable quote : string -> string.
Variable number : Z -> string.
Implicit Types (h : Heap) (t : TableM.Table Callable).

(** A click on a row that is not the selected one, by its id. *)
Lemma selectRow_other h t (obj : loc) :
  TableM.only_selected_flagged h t →
  (∀ s, TableM._selected t = Some s →
        py_eq (read h s "_uid") (read h obj "_uid") = false) →
  let ht := TableM._selectRow quote number h t obj in
  TableM._selected ht.2 = Some obj
  ∧ TableM.detailSelected ht.2 = TableM.details quote number ht.1 obj
  ∧ (∀ l, flagged ht.1 l = true ↔ l = obj)
  ∧ (∀ l k, k ≠ "_selected" → read ht.1 l k = read h l k).
Proof.
  intros Hflag Hnew. cbv zeta. unfold TableM._selectRow, TableM.details.
  destruct (TableM._selected t) as [sel|] eqn:Hsel.
  - rewrite !read_delete_other by (by right).
    rewrite (Hnew sel eq_refl). cbn [fst snd TableM._selected TableM.detailSelected
      TableM.set_selected].
    split_and!; [done|apply stringify_replacer| |].
    + intros l. rewrite flagged_write, flagged_delete.
      destruct (decide (l = obj)) as [->|Hne]; [done|].
      destruct (decide (l = sel)) as [->|Hne']; [done|].
      split; [|done]. intros Hl. apply Hflag in Hl. congruence.
    + intros l k Hk. rewrite read_write_other, read_delete_other; auto.
  - cbn [fst snd TableM._selected TableM.detailSelected TableM.set_selected].
    split_and!; [done|apply stringify_replacer| |].
    + intros l. rewrite flagged_write.
      destruct (decide (l = obj)) as [->|Hne]; [done|].
      split; [|done]. intros Hl. apply Hflag in Hl. congruence.
    + intros l k Hk. rewrite read_write_other; auto.
Qed.

(** A click on the selected row. *)
Lemma selectRow_same h t (obj : loc) :
  TableM.only_selected_flagged h t →
  TableM._selected t = Some obj →
  let ht := TableM._selectRow quote number h t obj in
  TableM._selected ht.2 = None
  ∧ TableM.detailSelected ht.2 = Some ""
  ∧ (∀ l, flagged ht.1 l = false).
Proof.
  intros Hflag Hsel. cbv zeta. unfold TableM._selectRow. rewrite Hsel.
  rewrite py_eq_refl. cbn [fst snd TableM._selected TableM.detailSelected
    TableM.set_selected].
  split_and!; [done|done|].
  intros l. rewrite flagged_delete.
  destruct (decide (l = obj)) as [->|Hne]; [done|].
  destruct (flagged h l) eqn:Hl; [|done]. apply Hflag in Hl. congruence.
Qed.


End SelectRow.


(** ** Searching *)

Lemma prefix_app (p s : string) :
  String.prefix p s = true ↔ ∃ b, s = p +:+ b.
Proof.
  revert s. induction p as [|c p IH]; intros s; simpl.
  - split; [by exists s|by destruct s].
  - destruct s as [|c' s]; simpl.
    + split; [done|]. by intros [b Hb].
    + destruct (Ascii.ascii_dec c c') as [<-|Hne].
      * rewrite IH. split; intros [b Hb]; exists b; [by rewrite Hb|by injection Hb].
      * split; [done|]. intros [b Hb]. injection Hb as Hc _. congruence.
Qed.

Lemma contains_substring (t s : string) :
  PyStr.contains t s = true ↔ Substring t s.
Proof.
  split.
  - induction s as [|c s IH]; cbn [PyStr.contains]; rewrite orb_true_iff.
    + intros [Hp|]; [|done]. apply prefix_app in Hp as [b Hb]. by exists "", b.
    + intros [Hp|Hc].
      * apply prefix_app in Hp as [b Hb]. by exists "", b.
      * destruct (IH Hc) as (a & b & ->). by exists (String c a), b.
  - intros (a & b & ->). induction a as [|c a IH].
    + assert (Hp : String.prefix t (t +:+ b) = true) by (apply prefix_app; eauto).
      change ("" +:+ t +:+ b) with (t +:+ b).
      destruct (t +:+ b); cbn [PyStr.contains]; by rewrite Hp.
    + change (String c a +:+ t +:+ b) with (String c (a +:+ t +:+ b)).
      cbn [PyStr.contains]. rewrite orb_true_iff. by right.
Qed.

Lemma checkPrimitive_matches (s : Searcher) (str : string) :
  SearcherM._checkPrimitive s (VStr str) = true ↔ matches s str.
Proof.
  unfold SearcherM._checkPrimitive, matches.
  destruct (searchTerm s) as [term|].
  - rewrite contains_substring. split; [by exists term|].
    by intros (term' & [= <-] & H).
  - split; [done|]. by intros (term' & ? & _).
Qed.

Lemma checkAny_reachable (s : Searcher) (v : Value) :
  SearcherM._checkAny s v = true ↔ ∃ str, Reachable v str ∧ matches s str.
Proof.
  induction v as [|b|n|str|l IH|o IH] using Value_nested_ind.
  - split; [done|]. intros (str & Hr & _). inversion Hr.
  - split; [done|]. intros (str & Hr & _). inversion Hr.
  - split; [done|]. intros (str & Hr & _). inversion Hr.
  - change (SearcherM._checkAny s (VStr str))
      with (SearcherM._checkPrimitive s (VStr str)).
    rewrite checkPrimitive_matches. split.
    + intros Hm. exists str. split; [constructor|done].
    + intros (str' & Hr & Hm). by inversion Hr; subst.
  - cbn [SearcherM._checkAny]. rewrite existsb_exists. split.
    + intros (x & Hx & Hc). apply list_elem_of_In in Hx.
      rewrite Forall_forall in IH. apply (IH x Hx) in Hc as (str & Hr & Hm).
      exists str. split; [by econstructor|done].
    + intros (str & Hr & Hm). inversion Hr as [|l' x s' Hx Hrx|]; subst.
      exists x. split; [by apply list_elem_of_In|].
      rewrite Forall_forall in IH. apply (IH x Hx). eauto.
  - cbn [SearcherM._checkAny]. rewrite existsb_exists. split.
    + intros ([k x] & Hx & Hc). apply list_elem_of_In in Hx.
      apply andb_true_iff in Hc as [Hk Hc]. apply negb_true_iff in Hk.
      rewrite Forall_forall in IH. apply (IH (k, x) Hx) in Hc as (str & Hr & Hm).
      exists str. split; [by econstructor|done].
    + intros (str & Hr & Hm). inversion Hr as [| |o' k x s' Hx Hk Hrx]; subst.
      exists (k, x). split; [by apply list_elem_of_In|].
      cbn [fst snd]. rewrite Hk. cbn [negb andb].
      rewrite Forall_forall in IH. apply (IH (k, x) Hx). eauto.
Qed.

Lemma search_reachable (s : Searcher) (obj : Obj) :
  SearcherM.search s obj = true ↔ ∃ str, Reachable (VObj obj) str ∧ matches s str.
Proof. apply (checkAny_reachable s (VObj obj)). Qed.

Lemma substring_0_app (a b : string) :
  substring 0 (String.length a) (a +:+ b) = a.
Proof.
  induction a as [|c a IH]; simpl; [by destruct b|]. by rewrite IH.
Qed.

Lemma substring_0_all (p : string) : substring 0 (String.length p) p = p.
Proof. induction p as [|c p IH]; simpl; [done|]. by rewrite IH. Qed.

Lemma substring_skip_app (a p : string) :
  substring (String.length a) (String.length p) (a +:+ p) = p.
Proof.
  induction a as [|c a IH]; simpl; [apply substring_0_all|done].
Qed.

Lemma length_app_string (a b : string) :
  String.length (a +:+ b) = (String.length a + String.length b)%nat.
Proof. induction a as [|c a IH]; simpl; [done|]. by rewrite IH. Qed.

Lemma endswith_app (a p : string) : PyStr.endswith p (a +:+ p) = true.
Proof.
  unfold PyStr.endswith. rewrite length_app_string.
  replace (String.length a + String.length p - String.length p)%nat
    with (String.length a) by lia.
  rewrite substring_skip_app, String.eqb_refl, andb_true_r.
  apply Nat.leb_le. lia.
Qed.

(** A term between two double quotes. *)
Lemma setSearch_quoted (s0 : Searcher) (body : string) :
  SearcherM.setSearch s0 (Some (PyStr.dquote +:+ body +:+ PyStr.dquote)) =
    {| searchTerm := Some body; caseSensitive := true |}.
Proof.
  unfold SearcherM.setSearch.
  assert (Hs : PyStr.startswith PyStr.dquote
                 (PyStr.dquote +:+ body +:+ PyStr.dquote) = true).
  { apply prefix_app. eauto. }
  assert (He : PyStr.endswith PyStr.dquote
                 (PyStr.dquote +:+ body +:+ PyStr.dquote) = true).
  { change (PyStr.dquote +:+ body +:+ PyStr.dquote)
      with ((PyStr.dquote +:+ body) +:+ PyStr.dquote) at 1.
    replace (PyStr.dquote +:+ body +:+ PyStr.dquote)
      with ((PyStr.dquote +:+ body) +:+ PyStr.dquote); [apply endswith_app|].
    done. }
  rewrite Hs, He. cbn [andb]. f_equal. f_equal.
  unfold PyStr.slice_1_m1.
  change (PyStr.dquote +:+ body +:+ PyStr.dquote)
    with (String "034"%char (body +:+ PyStr.dquote)).
  cbn [String.length substring]. rewrite length_app_string.
  change (String.length PyStr.dquote) with 1%nat.
  replace (S (String.length body + 1) - 2)%nat with (String.length body) by lia.
  apply substring_0_app.
Qed.

Lemma substring_split (n : nat) (s : string) :
  (n ≤ String.length s)%nat →
  s = substring 0 n s +:+ substring n (String.length s - n) s.
Proof.
  revert s. induction n as [|n IH]; intros s Hn.
  - rewrite Nat.sub_0_r, substring_0_all. by destruct s.
  - destruct s as [|c s]; simpl in Hn; [lia|].
    simpl.
    change (String c (substring 0 n s) +:+ substring n (String.length s - n) s)
      with (String c (substring 0 n s +:+ substring n (String.length s - n) s)).
    f_equal. apply IH. lia.
Qed.

Lemma endswith_inv (p s : string) :
  PyStr.endswith p s = true → ∃ a, s = a +:+ p.
Proof.
  unfold PyStr.endswith. intros [Hlen He]%andb_true_iff.
  apply Nat.leb_le in Hlen. apply String.eqb_eq in He.
  exists (substring 0 (String.length s - String.length p) s).
  pose proof (substring_split (String.length s - String.length p) s) as Hsp.
  replace (String.length s - (String.length s - String.length p))%nat
    with (String.length p) in Hsp by lia.
  rewrite He in Hsp. apply Hsp. lia.
Qed.

(** What the code takes for a term wrapped in double quotes: a term that
    starts and ends with one, the lone double quote included. *)
Lemma wrapped_in_quotes (t : string) :
  PyStr.startswith PyStr.dquote t && PyStr.endswith PyStr.dquote t = true
  ↔ t = PyStr.dquote ∨ ∃ body, t = PyStr.dquote +:+ body +:+ PyStr.dquote.
Proof.
  split.
  - intros [Hs He]%andb_true_iff.
    apply prefix_app in Hs as [b Hb]. apply endswith_inv in He as [a Ha].
    destruct a as [|c a]; [left; exact Ha|]. right. exists a.
    rewrite Ha in Hb.
    change (String c (a +:+ PyStr.dquote) = String "034"%char b) in Hb.
    injection Hb as Hc Hb. by rewrite Ha, Hc.
  - intros [->|[body ->]]; [done|].
    apply andb_true_iff. split; [apply prefix_app; eauto|].
    apply (endswith_app (PyStr.dquote +:+ body) PyStr.dquote).
Qed.


(** ** Private keys and the search *)

Lemma reachable_obj (o : Obj) (str : string) :
  Reachable (VObj o) str ↔
  ∃ k x, (k, x) ∈ o ∧ private k = false ∧ Reachable x str.
Proof.
  split.
  - intros Hr. inversion Hr; subst. eauto.
  - intros (k & x & Hin & Hk & Hr). by econstructor.
Qed.

Lemma elem_of_set_attr_ne (k k' : string) (v x : Value) (o : Obj) :
  k' ≠ k → (k', x) ∈ set_attr k v o ↔ (k', x) ∈ o.
Proof.
  intros Hne. induction o as [|[k0 w] o IH]; simpl.
  - rewrite list_elem_of_singleton. split; [|by intros ?%elem_of_nil].
    intros [= ? ?]. congruence.
  - destruct (String.eqb k0 k) eqn:E.
    + apply String.eqb_eq in E as ->. rewrite !elem_of_cons.
      split; (intros [[= ? ?]|?]; [congruence|by right]).
    + rewrite !elem_of_cons, IH. done.
Qed.

Lemma elem_of_del_attr_ne (k k' : string) (x : Value) (o : Obj) :
  k' ≠ k → (k', x) ∈ del_attr k o ↔ (k', x) ∈ o.
Proof.
  intros Hne. induction o as [|[k0 w] o IH]; simpl; [done|].
  destruct (String.eqb k0 k) eqn:E.
  - apply String.eqb_eq in E as ->. rewrite elem_of_cons, IH.
    split; [by right|]. intros [[= ? ?]|?]; [congruence|done].
  - rewrite !elem_of_cons, IH. done.
Qed.

(** Writing or deleting a private key of a row changes no string a search
    reaches in it. *)
Lemma has_string_set_private (k : string) (v : Value) (o : Obj) :
  private k = true →
  TabsM.has_string (set_attr k v o) ↔ TabsM.has_string o.
Proof.
  intros Hk. unfold TabsM.has_string.
  split; intros [str Hr]; exists str; apply reachable_obj in Hr
    as (k' & x & Hin & Hk' & Hr); apply reachable_obj; exists k', x;
    (split; [|done]);
    (apply (elem_of_set_attr_ne k k' v x o); [congruence|done]).
Qed.

Lemma has_string_del_private (k : string) (o : Obj) :
  private k = true →
  TabsM.has_string (del_attr k o) ↔ TabsM.has_string o.
Proof.
  intros Hk. unfold TabsM.has_string.
  split; intros [str Hr]; exists str; apply reachable_obj in Hr
    as (k' & x & Hin & Hk' & Hr); apply reachable_obj; exists k', x;
    (split; [|done]);
    (apply (elem_of_del_attr_ne k k' x o); [congruence|done]).
Qed.

Lemma call_has_string (s : Searcher) (m : TabsM.Method) (o : Obj) :
  TabsM.call s m o = true → TabsM.has_string o.
Proof.
  unfold TabsM.call. intros (str & Hr & _)%search_reachable. by exists str.
Qed.

(** With the empty term every string matches. *)
Lemma matches_empty (s0 : Searcher) (t : option string) (str : string) :
  t = None ∨ t = Some "" → matches (SearcherM.setSearch s0 t) str.
Proof.
  intros Ht. exists "". split; [by destruct Ht as [->| ->]|].
  by exists "", (if caseSensitive (SearcherM.setSearch s0 t) then str
               else PyStr.lower str).
Qed.

Lemma search_empty (s0 : Searcher) (t : option string) (o : Obj) :
  t = None ∨ t = Some "" →
  SearcherM.search (SearcherM.setSearch s0 t) o = true ↔ TabsM.has_string o.
Proof.
  intros Ht. rewrite search_reachable. unfold TabsM.has_string.
  split; intros [str Hr]; exists str; [by destruct Hr|].
  split; [done|by apply matches_empty].
Qed.

(** ** The rows of the page *)

Lemma alloc_spec (h : Heap) (n : nat) (rows : list Obj) :
  (TabsM.alloc h n rows).2 = seq n (List.length rows)
  ∧ ∀ l, (l < n)%nat → (TabsM.alloc h n rows).1 !! l = h !! l.
Proof.
  revert h n. induction rows as [|o rows IH]; intros h n; simpl; [done|].
  destruct (IH (<[n:=o]> h) (S n)) as [Hls Hh].
  destruct (TabsM.alloc (<[n:=o]> h) (S n) rows) as [h' ls]. simpl in *.
  split; [by rewrite Hls|].
  intros l Hl. rewrite Hh by lia. apply lookup_insert_ne. lia.
Qed.

Lemma add_data_deref {Callable : Type} (h : Heap) (t : TableM.Table Callable)
    (rows : list loc) (l : loc) :
  l ∉ rows → deref (foldl TableM.add_datum (h, t) rows).1 l = deref h l.
Proof.
  revert h t. induction rows as [|r rows IH]; intros h t Hl; [done|].
  apply not_elem_of_cons in Hl as [Hne Hl]. cbn [foldl].
  change (TableM.add_datum (h, t) r) with
    (write h r "_uid" (VNum (Z.of_nat (TableM.total t))),
     TableM.set_total (TableM.total t + 1)
       (TableM.set_data (TableM.data t ++ [r]) t)).
  rewrite IH by done. by apply deref_write_ne.
Qed.

Lemma selectRow_has_string {Callable : Type} (quote : string → string)
    (number : Z → string) (h : Heap) (t : TableM.Table Callable) (obj l : loc) :
  TabsM.has_string (deref (TableM._selectRow quote number h t obj).1 l)
  ↔ TabsM.has_string (deref h l).
Proof.
  assert (Hdel : ∀ h0 sel,
            TabsM.has_string (deref (delete_key h0 sel "_selected") l)
            ↔ TabsM.has_string (deref h0 l)).
  { intros h0 sel. destruct (decide (sel = l)) as [->|Hne].
    - rewrite deref_delete_eq. by apply has_string_del_private.
    - by rewrite deref_delete_ne. }
  assert (Hwr : ∀ h0,
            TabsM.has_string (deref (write h0 obj "_selected" (VBool true)) l)
            ↔ TabsM.has_string (deref h0 l)).
  { intros h0. destruct (decide (obj = l)) as [->|Hne].
    - rewrite deref_write_eq. by apply has_string_set_private.
    - by rewrite deref_write_ne. }
  unfold TableM._selectRow. destruct (TableM._selected t) as [sel|]; cbn [fst].
  - destruct (py_eq _ _); cbn [fst]; [apply Hdel|].
    by rewrite Hwr, Hdel.
  - apply Hwr.
Qed.

Section Rows.

Variable same : TabsM.Method -> TabsM.Method -> bool.
Variable key_lt : option Value -> option Value -> bool.
Variable getFieldOf : string -> Obj -> Field -> option Value.
Variable quote : string -> string.
Variable number : Z -> string.

Lemma tab_ok_refresh (h : Heap) (n : nat) (tab : TabsM.Tab) :
  TabsM.tab_ok h n tab → TabsM.tab_ok h n (TabsM.table_refresh tab).
Proof.
  intros [Hs Ha]. split; simpl.
  - done.
  - intros l [Hl|Hl]; [by apply elem_of_nil in Hl|]. apply Ha. by right.
Qed.

Lemma tab_ok_mono (h h' : Heap) (n n' : nat) (tab : TabsM.Tab) :
  (n ≤ n')%nat →
  (∀ l, (l < n)%nat →
        TabsM.has_string (deref h l) → TabsM.has_string (deref h' l)) →
  TabsM.tab_ok h n tab → TabsM.tab_ok h' n' tab.
Proof.
  intros Hn Hh [Hs Ha]. split.
  - intros Hf l Hl. apply Hh; [apply Ha; by right|by apply Hs].
  - intros l Hl. apply Ha in Hl. lia.
Qed.

(** The shown rows of a table whose rows were just derived. *)
Lemma derived_ok (s : Searcher) (h : Heap) (n : nat) (d : string)
    (t : TabsM.Table) :
  (∀ l, l ∈ TableM.data t → (l < n)%nat) →
  TabsM.tab_ok h n
    (TabsM.mkTab d
       (TableM._processData (TabsM.call s) key_lt (getFieldOf d) h t)).
Proof.
  intros Ha.
  destruct (processData_shown (TabsM.call s) key_lt (getFieldOf d) h t)
    as [Hp _].
  destruct (processData_frame (TabsM.call s) key_lt (getFieldOf d) h t)
    as (_ & _ & Hd & _ & _ & Hf & _).
  split; cbn [TabsM.table].
  - rewrite Hf. intros [m Hm] l Hl. rewrite Hp, Hm in Hl.
    apply elem_of_take in Hl as (i & Hl & _).
    apply list_elem_of_lookup_2, list_elem_of_In, filter_In in Hl as [_ Hl].
    by apply call_has_string in Hl.
  - rewrite Hd. intros l [Hl|Hl]; [by apply Ha|].
    rewrite Hp in Hl. apply elem_of_take in Hl as (i & Hl & _).
    apply list_elem_of_lookup_2, list_elem_of_In, filter_In in Hl as [Hl _].
    by apply Ha, list_elem_of_In.
Qed.

Lemma tab_ok_setFilter (s : Searcher) (h : Heap) (n : nat) (tab : TabsM.Tab)
    (f : option TabsM.Method) :
  TabsM.tab_ok h n tab →
  TabsM.tab_ok h n
    (TabsM.set_table
       (TableM.setFilter same (TabsM.call s) key_lt
          (getFieldOf (TabsM.Data_tab tab)) h (TabsM.table tab) f) tab).
Proof.
  intros Hok. unfold TableM.setFilter.
  destruct (TableM.filter_ne same f _); [|by destruct tab].
  apply derived_ok. destruct Hok as [_ Ha]. intros l Hl.
  apply Ha. by left.
Qed.

Lemma tab_ok_setSort (h : Heap) (n : nat) (tab : TabsM.Tab) (F : Field) :
  TabsM.tab_ok h n tab →
  TabsM.tab_ok h n
    (TabsM.set_table
       (TableM.setSort key_lt (getFieldOf (TabsM.Data_tab tab)) h
          (TabsM.table tab) F) tab).
Proof.
  intros [Hs Ha]. unfold TableM.setSort.
  set (u := if decide _ then _ else _).
  assert (Hu : TableM._shownData u = TableM._shownData (TabsM.table tab)
               ∧ TableM.data u = TableM.data (TabsM.table tab)
               ∧ TableM.filter u = TableM.filter (TabsM.table tab)).
  { subst u. by destruct (decide _). }
  destruct Hu as (E1 & E2 & E3).
  destruct (sortData_frame key_lt (getFieldOf (TabsM.Data_tab tab)) h u)
    as (_&_&Hd&_&_&_&Hf&_).
  pose proof (sortData_perm key_lt (getFieldOf (TabsM.Data_tab tab)) h u) as Hp.
  split; cbn [TabsM.table TabsM.set_table].
  - rewrite Hf, E3. intros Hfl l Hl. rewrite Hp, E1 in Hl. by apply Hs.
  - rewrite Hd, E2. intros l Hl. apply Ha.
    destruct Hl as [Hl|Hl]; [by left|]. right. by rewrite Hp, E1 in Hl.
Qed.

Lemma tab_ok_selectRow (h : Heap) (n : nat) (tab : TabsM.Tab) (obj : loc) :
  TabsM.tab_ok h n tab →
  TabsM.tab_ok (TableM._selectRow quote number h (TabsM.table tab) obj).1 n
    (TabsM.set_table
       (TableM._selectRow quote number h (TabsM.table tab) obj).2 tab).
Proof.
  intros [Hs Ha].
  destruct (selectRow_frame quote number h (TabsM.table tab) obj)
    as (Hd & Hsh & _ & _ & _ & Hf & _).
  cbv zeta in *. split; cbn [TabsM.table TabsM.set_table].
  - rewrite Hf, Hsh. intros Hfl l Hl. apply selectRow_has_string. by apply Hs.
  - rewrite Hd, Hsh. done.
Qed.

Lemma tab_ok_arrive (s : Searcher) (h : Heap) (n : nat) (tab : TabsM.Tab)
    (rows : list Obj) (clr : bool) :
  TabsM.tab_ok h n tab →
  let hl := TabsM.alloc h n rows in
  let ht := TableM._setData (TabsM.call s) key_lt
              (getFieldOf (TabsM.Data_tab tab)) hl.1 (TabsM.table tab) hl.2 clr in
  TabsM.tab_ok ht.1 (n + List.length rows) (TabsM.set_table ht.2 tab)
  ∧ ∀ l, (l < n)%nat → deref ht.1 l = deref h l.
Proof.
  intros [_ Ha]. cbv zeta.
  destruct (alloc_spec h n rows) as [Hls Hh].
  set (hl := TabsM.alloc h n rows) in *.
  rewrite setData_unfold. cbn [fst snd]. unfold TableM.add_data.
  set (t0 := if clr then TableM.clear (TabsM.table tab) else TabsM.table tab).
  destruct (foldl_add_datum hl.1 t0 hl.2) as (Hd & _). cbv zeta in Hd.
  split.
  - apply (derived_ok s _ _ (TabsM.Data_tab tab)).
    rewrite Hd, Hls. intros l [Hl|Hl]%elem_of_app.
    + assert (l ∈ TableM.data (TabsM.table tab)) as Hl'.
      { subst t0. destruct clr; [by apply elem_of_nil in Hl|done]. }
      assert (l < n)%nat by (apply Ha; by left). lia.
    + apply elem_of_seq in Hl. lia.
  - intros l Hl. rewrite add_data_deref.
    + unfold deref. by rewrite Hh.
    + rewrite Hls, elem_of_seq. lia.
Qed.

End Rows.

Section PageRows.

Variable same : TabsM.Method -> TabsM.Method -> bool.
Variable key_lt : option Value -> option Value -> bool.
Variable getFieldOf : string -> Obj -> Field -> option Value.
Variable quote : string -> string.
Variable number : Z -> string.

Local Abbreviation step := (TabsM.step same key_lt getFieldOf quote number).
Local Abbreviation reachable := (TabsM.reachable same key_lt getFieldOf quote number).

Lemma run_callbacks_tabs (p : TabsM.Tabs) (cs : list Callback) :
  TabsM.tabs (foldl TabsM.run_callback p cs) = TabsM.tabs p
  ∧ TabsM.searcher (foldl TabsM.run_callback p cs) = TabsM.searcher p
  ∧ TabsM._refreshPromise (foldl TabsM.run_callback p cs) = TabsM._refreshPromise p
  ∧ TabsM._refreshing (foldl TabsM.run_callback p cs) =
      match cs with [] => TabsM._refreshing p | _ => false end.
Proof.
  revert p. induction cs as [|[] cs IH]; intros p; [done|].
  cbn [foldl]. destruct (IH (TabsM.run_callback p Done)) as (E1 & E2 & E3 & E4).
  rewrite E1, E2, E3, E4. by destruct cs.
Qed.

Lemma refresh_rows_ok (w : TabsM.World) :
  TabsM.rows_ok w → TabsM.rows_ok (TabsM.refresh w).1.
Proof.
  unfold TabsM.rows_ok, TabsM.refresh. intros Hok.
  destruct (TabsM._refreshing (TabsM.page w)); [done|]. cbn.
  apply Forall_fmap. eapply Forall_impl; [exact Hok|].
  intros tab. apply tab_ok_refresh.
Qed.

Lemma settle_rows_ok (w : TabsM.World) (m : nat) (ok : bool) :
  TabsM.rows_ok w → TabsM.rows_ok (TabsM.settle w m ok).
Proof.
  unfold TabsM.rows_ok, TabsM.settle. intros Hok.
  destruct (TabsM.store w !! m) as [[[| |]|]|]; try done. cbn.
  by rewrite (proj1 (run_callbacks_tabs _ _)).
Qed.

Lemma arrive_rows_ok (w : TabsM.World) (i : nat) (rows : list Obj) (clr : bool) :
  TabsM.rows_ok w →
  TabsM.rows_ok (TabsM.arrive key_lt getFieldOf w i rows clr).
Proof.
  unfold TabsM.rows_ok, TabsM.arrive. intros Hok.
  destruct (TabsM.tabs (TabsM.page w) !! i) as [tab|] eqn:Hi; [|done].
  pose proof (Forall_lookup_1 _ _ _ _ Hok Hi) as Htab.
  destruct (tab_ok_arrive key_lt getFieldOf (TabsM.searcher (TabsM.page w))
              (TabsM.heap w) (TabsM.next w) tab rows clr Htab) as [Hnew Hold].
  cbv zeta in Hnew, Hold.
  destruct (TabsM.alloc (TabsM.heap w) (TabsM.next w) rows) as [h1 ls].
  cbn [fst snd] in Hnew, Hold.
  destruct (TableM._setData _ _ _ h1 (TabsM.table tab) ls clr) as [h2 t2].
  cbn [fst snd] in Hnew, Hold. cbn.
  apply Forall_insert; [|done].
  eapply Forall_impl; [exact Hok|]. intros tab'.
  apply tab_ok_mono; [lia|]. intros l Hl. by rewrite Hold.
Qed.

Lemma searchAll_rows_ok (w : TabsM.World) (text : option string) :
  TabsM.rows_ok w →
  TabsM.rows_ok (TabsM.searchAll same key_lt getFieldOf w text).
Proof.
  unfold TabsM.rows_ok, TabsM.searchAll. intros Hok. cbn.
  apply Forall_fmap. eapply Forall_impl; [exact Hok|].
  intros tab. apply tab_ok_setFilter.
Qed.

Lemma searchCurrent_rows_ok (w : TabsM.World) (text active : option string) :
  TabsM.rows_ok w →
  TabsM.rows_ok (TabsM.searchCurrent same key_lt getFieldOf w text active).
Proof.
  unfold TabsM.rows_ok, TabsM.searchCurrent. intros Hok.
  set (truthy := match text with Some (String _ _) => true | _ => false end).
  destruct truthy, (TabsM.currentTab _ active) as [cur|]; cbn; try done;
    (apply Forall_fmap; eapply Forall_impl; [exact Hok|]; intros tab Htab; cbn;
     try destruct (String.eqb _ _); by apply tab_ok_setFilter).
Qed.

Lemma click_header_rows_ok (w : TabsM.World) (i : nat) (F : Field) :
  TabsM.rows_ok w →
  TabsM.rows_ok (TabsM.click_header key_lt getFieldOf w i F).
Proof.
  unfold TabsM.rows_ok, TabsM.click_header. intros Hok.
  destruct (TabsM.tabs (TabsM.page w) !! i) as [tab|] eqn:Hi; [|done]. cbn.
  apply Forall_insert; [done|].
  apply tab_ok_setSort. by eapply Forall_lookup_1.
Qed.

Lemma click_row_rows_ok (w : TabsM.World) (i : nat) (obj : loc) :
  TabsM.rows_ok w →
  TabsM.rows_ok (TabsM.click_row quote number w i obj).
Proof.
  unfold TabsM.rows_ok, TabsM.click_row. intros Hok.
  destruct (TabsM.tabs (TabsM.page w) !! i) as [tab|] eqn:Hi; [|done].
  destruct (bool_decide _); [|done].
  pose proof (Forall_lookup_1 _ _ _ _ Hok Hi) as Htab.
  pose proof (tab_ok_selectRow quote number _ _ _ obj Htab) as Hnew.
  pose proof (selectRow_has_string quote number (TabsM.heap w)
                (TabsM.table tab) obj) as Hh.
  destruct (TableM._selectRow quote number (TabsM.heap w) (TabsM.table tab) obj)
    as [h' t']. cbn [fst snd] in *. cbn.
  apply Forall_insert; [|done].
  eapply Forall_impl; [exact Hok|]. intros tab'.
  apply tab_ok_mono; [lia|]. intros l _ Hl. by apply Hh.
Qed.

Lemma step_rows_ok (w : TabsM.World) (e : TabsM.Event) :
  TabsM.rows_ok w → TabsM.rows_ok (step w e).
Proof.
  destruct e; simpl.
  - apply refresh_rows_ok.
  - apply settle_rows_ok.
  - apply arrive_rows_ok.
  - apply searchAll_rows_ok.
  - apply searchCurrent_rows_ok.
  - apply click_header_rows_ok.
  - apply click_row_rows_ok.
Qed.

Lemma init_rows_ok : TabsM.rows_ok TabsM.init.
Proof.
  unfold TabsM.rows_ok. cbn.
  repeat constructor; cbn; try done;
    intros l [Hl|Hl]; by apply elem_of_nil in Hl.
Qed.

Lemma reachable_rows_ok (w : TabsM.World) : reachable w → TabsM.rows_ok w.
Proof.
  intros [es ->]. unfold TabsM.run.
  induction es as [|e es IH] using rev_ind; [apply init_rows_ok|].
  rewrite foldl_app. cbn [foldl]. by apply step_rows_ok.
Qed.

End PageRows.

(** ** Searching with an empty search box *)

Section EmptySearch.

Variable same : TabsM.Method -> TabsM.Method -> bool.
Variable key_lt : option Value -> option Value -> bool.
Variable getFieldOf : string -> Obj -> Field -> option Value.
Variable quote : string -> string.
Variable number : Z -> string.

Lemma setFilter_installed (s : Searcher) (h : Heap) (d : string)
    (t : TabsM.Table) (m : TabsM.Method) :
  TableM.filter
    (TableM.setFilter same (TabsM.call s) key_lt (getFieldOf d) h t (Some m))
  = Some TabsM.searcher_search.
Proof.
  unfold TableM.setFilter.
  destruct (TableM.filter_ne same (Some m) (TableM.filter t)) eqn:Hne.
  - destruct (processData_frame (TabsM.call s) key_lt (getFieldOf d) h
                (TableM.set_filter (Some m) t)) as (_&_&_&_&_&Hf&_).
    rewrite Hf. by destruct m.
  - destruct (TableM.filter t) as [[]|]; [done|discriminate Hne].
Qed.

(** C10.  With a missing or empty term the searcher looks for the empty
    string without regard to case, and [search] answers true exactly for the
    rows with a string to reach under keys that do not start with an
    underscore.  [searchAll] with an empty search box installs that filter
    on every table, none is cleared, and no table then shows a row without
    such a string; a table that had no filter before shows exactly its first
    [max_size] rows that have one. *)
Theorem empty_search_hides_stringless (w : TabsM.World) (text : option string)
    (r : Obj)
    (Hw : TabsM.reachable same key_lt getFieldOf quote number w)
    (Ht : text = None ∨ text = Some "") :
  let s := SearcherM.setSearch (TabsM.searcher (TabsM.page w)) text in
  let w' := TabsM.searchAll same key_lt getFieldOf w text in
  (searchTerm s = Some "" ∧ caseSensitive s = false)
  ∧ (SearcherM.search s r = true ↔ TabsM.has_string r)
  ∧ TabsM.searcher (TabsM.page w') = s
  ∧ (∀ tab, tab ∈ TabsM.tabs (TabsM.page w') →
       TableM.filter (TabsM.table tab) = Some TabsM.searcher_search
       ∧ ∀ l, l ∈ TableM._shownData (TabsM.table tab) →
              TabsM.has_string (deref (TabsM.heap w') l))
  ∧ (∀ i tab, TabsM.tabs (TabsM.page w) !! i = Some tab →
       TableM.filter (TabsM.table tab) = None →
       ∃ tab', TabsM.tabs (TabsM.page w') !! i = Some tab'
         ∧ TableM._shownData (TabsM.table tab') ≡ₚ
             take (TableM.max_size (TabsM.table tab))
               (List.filter
                  (fun l => SearcherM.search s (deref (TabsM.heap w) l))
                  (TableM.data (TabsM.table tab)))).
Proof.
  cbv zeta.
  split; [by destruct Ht as [->| ->]|].
  split; [by apply search_empty|].
  split; [done|].
  split.
  - intros tab' Htab'.
    pose proof (searchAll_rows_ok same key_lt getFieldOf w text
                  (reachable_rows_ok same key_lt getFieldOf quote number w Hw))
      as Hok.
    unfold TabsM.rows_ok in Hok. rewrite Forall_forall in Hok.
    destruct (Hok tab' Htab') as [Hs _].
    cbn in Htab'. apply list_elem_of_fmap in Htab' as (tab & -> & _).
    cbn [TabsM.table TabsM.set_table] in *.
    rewrite setFilter_installed in *. split; [done|].
    intros l Hl. by apply Hs.
  - intros i tab Hi Hf. cbn. rewrite list_lookup_fmap, Hi. cbn.
    eexists. split; [done|]. cbn [TabsM.table TabsM.set_table].
    unfold TableM.setFilter. rewrite Hf. cbn [TableM.filter_ne].
    destruct (processData_shown
                (TabsM.call (SearcherM.setSearch (TabsM.searcher (TabsM.page w)) text))
                key_lt (getFieldOf (TabsM.Data_tab tab)) (TabsM.heap w)
                (TableM.set_filter (Some TabsM.searcher_search) (TabsM.table tab)))
      as [Hp _].
    exact Hp.
Qed.

End EmptySearch.

Lemma empty_search_hides_stringless_witness :
  let w' := TabsM.searchAll Scenario.same value_lt Scenario.getFieldOf
              Scenario.loaded_page None in
  TabsM.reachable Scenario.same value_lt Scenario.getFieldOf
    Scenario.quote Scenario.number Scenario.loaded_page
  ∧ (∀ tab, tab ∈ TabsM.tabs (TabsM.page w') →
       TableM.filter (TabsM.table tab) = Some TabsM.searcher_search
       ∧ ∀ l, l ∈ TableM._shownData (TabsM.table tab) →
              TabsM.has_string (deref (TabsM.heap w') l)).
Proof.
  cbv zeta.
  assert (Hw : TabsM.reachable Scenario.same value_lt Scenario.getFieldOf
                 Scenario.quote Scenario.number Scenario.loaded_page).
  { by exists [TabsM.EvArrive 1 Scenario.mixed_rows true]. }
  split; [exact Hw|].
  exact (proj1 (proj2 (proj2 (proj2
    (empty_search_hides_stringless Scenario.same value_lt Scenario.getFieldOf
       Scenario.quote Scenario.number Scenario.loaded_page None []
       Hw (or_introl eq_refl)))))).
Defined.

(** ** Cells of missing data *)

Section MissingData.

Variable repr : Value -> string.
Variable toISOString : Z -> string.

(** C9, as the code has it.  For data that is [None] or missing, the cell
    of every field class but [EpochField] shows the empty string;
    [EpochField.format] divides the empty string that [view] put in place
    of the missing data by 1000, and [view] raises. *)
Theorem view_of_missing_data (f : Field) :
  let cell := FieldM.view repr toISOString f None in
  FieldM.view repr toISOString f (Some VNull) = cell
  ∧ match cls f with
    | CEpochField => cell = Raise TypeError
    | CFillField =>
        cell = Ok {| tag := "td";
                     attrs := [("title", ""); ("class", "fill-space")];
                     text := "" |}
    | _ => cell = Ok {| tag := "td"; attrs := [("title", "")]; text := "" |}
    end.
Proof.
  cbv zeta. split; [done|].
  unfold FieldM.view, FieldM.format. by destruct (cls f).
Qed.

End MissingData.

(** ** The guard of the refresh *)

Lemma react_cases (s : list Promise) (m : nat) (ok : bool) (pr : Promise) :
  TabsM.react s m ok pr = (pr, [])
  ∨ ∃ ms th ca,
      pr = All Pending ms th ca
      ∧ m ∈ ms
      ∧ TabsM.react s m ok pr =
          (All (if ok then Fulfilled else Rejected) ms th ca,
           if ok then th else ca).
Proof.
  destruct pr as [st|[| |] ms th ca]; try (by left).
  unfold TabsM.react. case_bool_decide as Hm; [|by left].
  destruct ok; [destruct (forallb _ ms); [|by left]|]; right; by exists ms, th, ca.
Qed.

Section Guard.

Variable same : TabsM.Method -> TabsM.Method -> bool.
Variable key_lt : option Value -> option Value -> bool.
Variable getFieldOf : string -> Obj -> Field -> option Value.
Variable quote : string -> string.
Variable number : Z -> string.

Local Abbreviation step := (TabsM.step same key_lt getFieldOf quote number).
Local Abbreviation reachable := (TabsM.reachable same key_lt getFieldOf quote number).

(** What the guard is about: the store, the flag and the handle. *)
Lemma guarded_control (w w' : TabsM.World) :
  TabsM.store w' = TabsM.store w →
  TabsM._refreshing (TabsM.page w') = TabsM._refreshing (TabsM.page w) →
  TabsM._refreshPromise (TabsM.page w') = TabsM._refreshPromise (TabsM.page w) →
  TabsM.guarded w → TabsM.guarded w'.
Proof.
  unfold TabsM.guarded, TabsM.outstanding. intros -> -> ->. done.
Qed.

Lemma refresh_guarded (w : TabsM.World) :
  TabsM.guarded w → TabsM.guarded (TabsM.refresh w).1.
Proof.
  intros Hg. pose proof Hg as (H1 & H2 & H3). unfold TabsM.refresh.
  destruct (TabsM._refreshing (TabsM.page w)) eqn:Hr; [exact Hg|].
  unfold TabsM.guarded, TabsM.outstanding. cbn.
  set (n := List.length (TabsM.store w)).
  set (k := List.length (TabsM.tabs (TabsM.page w))).
  set (leaves := map (λ _ : TabsM.Tab, TableRefresh Pending)
                   (TabsM.tabs (TabsM.page w))).
  assert (Hlen : List.length (TabsM.store w ++ leaves) = (n + k)%nat).
  { rewrite length_app. subst leaves. by rewrite length_map. }
  assert (Hlook : ∀ a pr,
            ((TabsM.store w ++ leaves) ++
               [All Pending (seq n k) [Done] [Done]]) !! a = Some pr →
            (TabsM.store w !! a = Some pr)
            ∨ (∃ st, pr = TableRefresh st)
            ∨ (a = (n + k)%nat ∧ pr = All Pending (seq n k) [Done] [Done])).
  { intros a pr Ha. apply lookup_app_Some in Ha as [Ha|[Hge Ha]].
    - apply lookup_app_Some in Ha as [Ha|[_ Ha]]; [by left|].
      right. left. subst leaves. rewrite list_lookup_fmap in Ha.
      destruct (_ !! _); [|done]. injection Ha as <-. eauto.
    - right. right. rewrite Hlen in *.
      destruct (a - (n + k))%nat as [|j] eqn:Hj; [|done].
      injection Ha as <-. split; [lia|done]. }
  assert (Hall : ((TabsM.store w ++ leaves) ++
                    [All Pending (seq n k) [Done] [Done]]) !! (n + k)%nat =
                 Some (All Pending (seq n k) [Done] [Done])).
  { rewrite lookup_app_r by (rewrite Hlen; lia).
    rewrite Hlen. by replace (n + k - (n + k))%nat with 0%nat by lia. }
  split_and!.
  - intros a (ms & th & ca & Ha). apply Hlook in Ha as [Ha|[[st Ha]|[-> Ha]]].
    + destruct (H1 a) as [Hr' _]; [by exists ms, th, ca|]. congruence.
    + discriminate Ha.
    + by rewrite Hlen.
  - intros _. exists (n + k)%nat. split; [by rewrite Hlen|].
    by exists (seq n k), [Done], [Done].
  - intros a [= <-]. rewrite Hlen. by exists Pending, (seq n k).
Qed.

Lemma settle_unfold (w : TabsM.World) (m : nat) (ok : bool) :
  TabsM.store w !! m = Some (TableRefresh Pending) →
  let s1 := <[m := TableRefresh (if ok then Fulfilled else Rejected)]>
              (TabsM.store w) in
  let rs := map (TabsM.react s1 m ok) s1 in
  TabsM.settle w m ok =
    {| TabsM.heap := TabsM.heap w; TabsM.next := TabsM.next w;
       TabsM.store := map fst rs;
       TabsM.page := foldl TabsM.run_callback (TabsM.page w)
                       (List.concat (map snd rs)) |}.
Proof. intros Hm. unfold TabsM.settle. by rewrite Hm. Qed.

Lemma settle_other (w : TabsM.World) (m : nat) (ok : bool) :
  TabsM.store w !! m ≠ Some (TableRefresh Pending) →
  TabsM.settle w m ok = w.
Proof.
  intros Hm. unfold TabsM.settle.
  by destruct (TabsM.store w !! m) as [[[| |]|]|].
Qed.

(** The store and the callbacks of a settlement, entry by entry. *)
Lemma settle_entries (w : TabsM.World) (m : nat) (ok : bool) :
  TabsM.store w !! m = Some (TableRefresh Pending) →
  let s1 := <[m := TableRefresh (if ok then Fulfilled else Rejected)]>
              (TabsM.store w) in
  let w' := TabsM.settle w m ok in
  (∀ a, TabsM.store w' !! a =
        (λ pr, (TabsM.react s1 m ok pr).1) <$> s1 !! a)
  ∧ (∀ a ms th ca, s1 !! a = Some (All Pending ms th ca) ↔
                   TabsM.store w !! a = Some (All Pending ms th ca))
  ∧ (∀ a st ms th ca, TabsM.store w !! a = Some (All st ms th ca) →
                      s1 !! a = Some (All st ms th ca))
  ∧ TabsM._refreshPromise (TabsM.page w') = TabsM._refreshPromise (TabsM.page w)
  ∧ (TabsM._refreshing (TabsM.page w') = true →
     TabsM._refreshing (TabsM.page w) = true
     ∧ ∀ a pr, s1 !! a = Some pr → (TabsM.react s1 m ok pr).2 = [])
  ∧ ((∃ a pr, s1 !! a = Some pr ∧ (TabsM.react s1 m ok pr).2 ≠ []) →
     TabsM._refreshing (TabsM.page w') = false).
Proof.
  intros Hm. cbv zeta. rewrite (settle_unfold w m ok Hm). cbv zeta. cbn.
  set (s1 := <[m := TableRefresh (if ok then Fulfilled else Rejected)]>
               (TabsM.store w)).
  set (cs := List.concat (map snd (map (TabsM.react s1 m ok) s1))).
  destruct (run_callbacks_tabs (TabsM.page w) cs) as (_ & _ & Hp & Hr).
  assert (Hcs : cs = [] ↔ ∀ a pr, s1 !! a = Some pr →
                                   (TabsM.react s1 m ok pr).2 = []).
  { subst cs. rewrite concat_nil_Forall, map_map, Forall_fmap, Forall_lookup.
    done. }
  assert (Hne : ∀ a st ms th ca, TabsM.store w !! a = Some (All st ms th ca) →
                                 a ≠ m) by (intros a ????? ->; congruence).
  split_and!.
  - intros a. rewrite map_map, list_lookup_fmap. done.
  - intros a ms th ca. subst s1. split.
    + intros [(_ & ? & _)|[_ Ha]]%list_lookup_insert_Some; [done|done].
    + intros Ha. rewrite list_lookup_insert_ne; [done|].
      intros <-. congruence.
  - intros a st ms th ca Ha. subst s1. rewrite list_lookup_insert_ne; [done|].
    intros <-. congruence.
  - done.
  - intros Ht. rewrite Hr in Ht. destruct cs eqn:E; [|done].
    split; [done|]. by apply Hcs.
  - intros (a & pr & Ha & Hcb). rewrite Hr. destruct cs eqn:E; [|done].
    exfalso. apply Hcb. by apply (proj1 Hcs eq_refl a pr).
Qed.

Lemma settle_guarded (w : TabsM.World) (m : nat) (ok : bool) :
  TabsM.guarded w → TabsM.guarded (TabsM.settle w m ok).
Proof.
  intros Hg. pose proof Hg as (H1 & H2 & H3).
  destruct (decide (TabsM.store w !! m = Some (TableRefresh Pending)))
    as [Hm|Hm]; [|by rewrite settle_other].
  destruct (settle_entries w m ok Hm) as (Hst & Hpend & Hkeep & Hp & Hon & Hoff).
  cbv zeta in *.
  set (s1 := <[m := TableRefresh (if ok then Fulfilled else Rejected)]>
               (TabsM.store w)) in *.
  set (w' := TabsM.settle w m ok) in *.
  assert (Hout : ∀ a, TabsM.outstanding w' a →
            TabsM.outstanding w a
            ∧ ∀ pr, s1 !! a = Some pr → (TabsM.react s1 m ok pr).1 = pr).
  { intros a (ms & th & ca & Ha). rewrite Hst in Ha.
    destruct (s1 !! a) as [pr|] eqn:Hs1; [|done]. cbn in Ha.
    injection Ha as Ha.
    destruct (react_cases s1 m ok pr) as [E|(ms' & th' & ca' & -> & _ & E)];
      rewrite E in Ha; cbn in Ha.
    - subst pr. split; [exists ms, th, ca; by apply Hpend|].
      intros pr' [= <-]. by rewrite E.
    - by destruct ok. }
  unfold TabsM.guarded. split_and!.
  - intros a Ha. destruct (Hout a Ha) as [Hold Hsame].
    destruct (H1 a Hold) as [Hr Hpa]. rewrite Hp. split; [|done].
    destruct (TabsM._refreshing (TabsM.page w')) eqn:Hr'; [done|].
    exfalso.
    destruct (H3 a Hpa) as (st & ms & Hcur).
    destruct Hold as (ms0 & th0 & ca0 & Hold). rewrite Hold in Hcur.
    injection Hcur as <- <- -> ->.
    assert (Hs1 : s1 !! a = Some (All Pending ms0 [Done] [Done]))
      by (by apply Hpend).
    assert (Hno : ∀ b pr, s1 !! b = Some pr → (TabsM.react s1 m ok pr).2 = []).
    { intros b pr Hb.
      destruct (react_cases s1 m ok pr) as [E|(ms' & th' & ca' & -> & _ & E)];
        [by rewrite E|].
      assert (b = a) as ->.
      { apply Hpend in Hb. destruct (H1 b) as [_ Hpb];
          [by exists ms', th', ca'|]. congruence. }
      pose proof (Hsame _ Hb) as Hfix. rewrite E in Hfix. cbn in Hfix.
      by destruct ok. }
    destruct (run_callbacks_tabs (TabsM.page w)
                (List.concat (map snd (map (TabsM.react s1 m ok) s1))))
      as (_ & _ & _ & Hrr).
    assert (Hnil : List.concat (map snd (map (TabsM.react s1 m ok) s1)) = []).
    { rewrite concat_nil_Forall, map_map, Forall_fmap, Forall_lookup. done. }
    subst w'. rewrite (settle_unfold w m ok Hm) in Hr'. cbv zeta in Hr'.
    cbn in Hr'. fold s1 in Hr'. rewrite Hrr, Hnil in Hr'. congruence.
  - intros Hr'. destruct (Hon Hr') as [Hr Hno].
    destruct (H2 Hr) as (a & Hpa & ms & th & ca & Ha).
    exists a. rewrite Hp. split; [done|].
    destruct (H3 a Hpa) as (st & ms' & Hcur). rewrite Ha in Hcur.
    injection Hcur as <- <- -> ->.
    assert (Hs1 : s1 !! a = Some (All Pending ms [Done] [Done]))
      by (by apply Hpend).
    exists ms, [Done], [Done]. rewrite Hst, Hs1.
    change (Some (TabsM.react s1 m ok (All Pending ms [Done] [Done])).1 =
            Some (All Pending ms [Done] [Done])).
    specialize (Hno _ _ Hs1).
    destruct (react_cases s1 m ok (All Pending ms [Done] [Done]))
      as [E|(ms' & th' & ca' & [= <- <- <-] & _ & E)].
    + by rewrite E.
    + rewrite E in Hno. cbn in Hno. by destruct ok.
  - intros a Hpa. rewrite Hp in Hpa. destruct (H3 a Hpa) as (st & ms & Hcur).
    apply Hkeep in Hcur. rewrite Hst, Hcur.
    change (∃ st0 ms0,
              Some (TabsM.react s1 m ok (All st ms [Done] [Done])).1 =
              Some (All st0 ms0 [Done] [Done])).
    destruct (react_cases s1 m ok (All st ms [Done] [Done]))
      as [E|(ms' & th' & ca' & [= -> <- <- <-] & _ & E)]; rewrite E; cbn; eauto.
Qed.

Lemma step_guarded (w : TabsM.World) (e : TabsM.Event) :
  TabsM.guarded w → TabsM.guarded (step w e).
Proof.
  destruct e as [|m ok|i rows clr|text|text active|i F|i obj]; simpl.
  - apply refresh_guarded.
  - apply settle_guarded.
  - apply guarded_control; unfold TabsM.arrive;
      destruct (TabsM.tabs (TabsM.page w) !! i); try done;
      destruct (TabsM.alloc _ _ _); destruct (TableM._setData _ _ _ _ _ _ _);
      done.
  - by apply guarded_control.
  - apply guarded_control; unfold TabsM.searchCurrent;
      destruct text as [[|]|]; destruct (TabsM.currentTab _ active); done.
  - apply guarded_control; unfold TabsM.click_header;
      by destruct (TabsM.tabs (TabsM.page w) !! i).
  - apply guarded_control; unfold TabsM.click_row;
      destruct (TabsM.tabs (TabsM.page w) !! i); try done;
      destruct (bool_decide _); try done;
      by destruct (TableM._selectRow _ _ _ _ _).
Qed.

Lemma init_guarded : TabsM.guarded TabsM.init.
Proof.
  apply refresh_guarded. unfold TabsM.guarded, TabsM.outstanding. cbn.
  split_and!.
  - by intros a (ms & th & ca & ?).
  - done.
  - done.
Qed.

Lemma reachable_guarded (w : TabsM.World) : reachable w → TabsM.guarded w.
Proof.
  intros [es ->]. unfold TabsM.run.
  induction es as [|e es IH] using rev_ind; [apply init_guarded|].
  rewrite foldl_app. cbn [foldl]. by apply step_guarded.
Qed.

(** C5.  In every state the page reaches: a call of [refresh()] while the
    guard is set changes nothing, so it starts no refresh of a table, and
    returns the handle of the aggregate refresh under way, which is pending;
    a second call right after any call returns the handle of the first.
    When the aggregate of the handle settles, fulfilled or rejected, the
    guard is cleared.  A call with the guard clear makes one pending promise
    per table and a new pending aggregate over them, returns its handle and
    sets the guard.  No two aggregates are outstanding at once. *)
Theorem refresh_guard (w : TabsM.World) (Hw : reachable w) :
  (TabsM._refreshing (TabsM.page w) = true →
   TabsM.refresh w = (w, TabsM._refreshPromise (TabsM.page w))
   ∧ ∃ a, TabsM._refreshPromise (TabsM.page w) = Some a ∧ TabsM.outstanding w a)
  ∧ (TabsM.refresh (TabsM.refresh w).1 = ((TabsM.refresh w).1, (TabsM.refresh w).2))
  ∧ (∀ m ok a,
       TabsM._refreshPromise (TabsM.page w) = Some a →
       TabsM.state_of w a = Some Pending →
       TabsM.state_of (TabsM.settle w m ok) a ≠ Some Pending →
       TabsM._refreshing (TabsM.page (TabsM.settle w m ok)) = false)
  ∧ (∀ m a ms,
       TabsM.store w !! m = Some (TableRefresh Pending) →
       TabsM._refreshPromise (TabsM.page w) = Some a →
       TabsM.store w !! a = Some (All Pending ms [Done] [Done]) →
       m ∈ ms →
       TabsM.state_of (TabsM.settle w m false) a = Some Rejected
       ∧ TabsM._refreshing (TabsM.page (TabsM.settle w m false)) = false)
  ∧ (∀ m a ms,
       TabsM.store w !! m = Some (TableRefresh Pending) →
       TabsM._refreshPromise (TabsM.page w) = Some a →
       TabsM.store w !! a = Some (All Pending ms [Done] [Done]) →
       m ∈ ms →
       (∀ m', m' ∈ ms → m' ≠ m → pstate <$> TabsM.store w !! m' = Some Fulfilled) →
       TabsM.state_of (TabsM.settle w m true) a = Some Fulfilled
       ∧ TabsM._refreshing (TabsM.page (TabsM.settle w m true)) = false)
  ∧ (TabsM._refreshing (TabsM.page w) = false →
     let n := List.length (TabsM.store w) in
     let k := List.length (TabsM.tabs (TabsM.page w)) in
     let w' := (TabsM.refresh w).1 in
     (TabsM.refresh w).2 = Some (n + k)%nat
     ∧ TabsM.store w !! (n + k)%nat = None
     ∧ TabsM.store w' =
         TabsM.store w ++ replicate k (TableRefresh Pending)
           ++ [All Pending (seq n k) [Done] [Done]]
     ∧ TabsM._refreshing (TabsM.page w') = true
     ∧ TabsM._refreshPromise (TabsM.page w') = Some (n + k)%nat
     ∧ (∀ a, TabsM.outstanding w a → False))
  ∧ (∀ a b, TabsM.outstanding w a → TabsM.outstanding w b → a = b).
Proof.
  pose proof (reachable_guarded w Hw) as (H1 & H2 & H3).
  split; [|split; [|split; [|split; [|split; [|split]]]]].
  - intros Hr. split; [|by apply H2]. unfold TabsM.refresh. by rewrite Hr.
  - unfold TabsM.refresh at 1.
    assert (Hr : TabsM._refreshing (TabsM.page (TabsM.refresh w).1) = true).
    { unfold TabsM.refresh. by destruct (TabsM._refreshing (TabsM.page w)) eqn:E. }
    rewrite Hr. f_equal. unfold TabsM.refresh.
    by destruct (TabsM._refreshing (TabsM.page w)).
  - intros m ok a Hpa Hpend Hset.
    destruct (decide (TabsM.store w !! m = Some (TableRefresh Pending)))
      as [Hm|Hm]; [|by rewrite settle_other in Hset].
    destruct (settle_entries w m ok Hm) as (Hst & _ & Hkeep & _ & _ & Hoff).
    cbv zeta in *. apply Hoff.
    destruct (H3 a Hpa) as (st & ms & Hcur).
    unfold TabsM.state_of in Hpend, Hset. rewrite Hcur in Hpend.
    injection Hpend as ->. apply Hkeep in Hcur.
    eexists a, _. split; [exact Hcur|].
    rewrite Hst, Hcur in Hset.
    destruct (react_cases
                (<[m:=TableRefresh (if ok then Fulfilled else Rejected)]>
                   (TabsM.store w)) m ok (All Pending ms [Done] [Done]))
      as [E|(ms' & th' & ca' & [= <- <- <-] & _ & E)].
    + cbn [fmap option_fmap option_map] in Hset. rewrite E in Hset. done.
    + rewrite E. cbn. by destruct ok.
  - intros m a ms Hm Hpa Hcur Hin.
    destruct (settle_entries w m false Hm) as (Hst & _ & Hkeep & _ & _ & Hoff).
    cbv zeta in *. apply Hkeep in Hcur.
    assert (E : TabsM.react (<[m:=TableRefresh Rejected]> (TabsM.store w)) m false
                  (All Pending ms [Done] [Done]) =
                (All Rejected ms [Done] [Done], [Done])).
    { unfold TabsM.react. by rewrite bool_decide_true. }
    split.
    + unfold TabsM.state_of. rewrite Hst, Hcur.
      cbn [fmap option_fmap option_map]. by rewrite E.
    + apply Hoff. eexists a, _. split; [exact Hcur|]. by rewrite E.
  - intros m a ms Hm Hpa Hcur Hin Hrest.
    destruct (settle_entries w m true Hm) as (Hst & _ & Hkeep & _ & _ & Hoff).
    cbv zeta in *. apply Hkeep in Hcur.
    assert (E : TabsM.react (<[m:=TableRefresh Fulfilled]> (TabsM.store w)) m true
                  (All Pending ms [Done] [Done]) =
                (All Fulfilled ms [Done] [Done], [Done])).
    { unfold TabsM.react. rewrite bool_decide_true by done.
      replace (forallb _ ms) with true; [done|].
      symmetry. apply forallb_forall. intros m' Hm'%list_elem_of_In.
      unfold TabsM.is_fulfilled. destruct (decide (m' = m)) as [->|Hne].
      - rewrite list_lookup_insert_eq; [done|].
        by apply lookup_lt_Some in Hm.
      - rewrite list_lookup_insert_ne by done.
        specialize (Hrest m' Hm' Hne).
        destruct (TabsM.store w !! m') as [pr|]; [|done].
        injection Hrest as ->. done. }
    split.
    + unfold TabsM.state_of. rewrite Hst, Hcur.
      cbn [fmap option_fmap option_map]. by rewrite E.
    + apply Hoff. eexists a, _. split; [exact Hcur|]. by rewrite E.
  - intros Hr. cbv zeta. unfold TabsM.refresh. rewrite Hr. cbn.
    rewrite length_app, length_map.
    split_and!; try done.
    + apply lookup_ge_None. lia.
    + rewrite <- app_assoc. f_equal. f_equal.
      by rewrite <- (const_fmap (λ _, TableRefresh Pending)).
    + intros a Ha. destruct (H1 a Ha) as [Hr' _]. congruence.
  - intros a b Ha Hb. destruct (H1 a Ha) as [_ Ea], (H1 b Hb) as [_ Eb].
    congruence.
Qed.

End Guard.

Lemma refresh_guard_witness :
  let w := Scenario.loaded_page in
  TabsM.reachable Scenario.same value_lt Scenario.getFieldOf
    Scenario.quote Scenario.number w
  ∧ TabsM.refresh (TabsM.refresh w).1 = ((TabsM.refresh w).1, (TabsM.refresh w).2)
  ∧ (∀ a b, TabsM.outstanding w a → TabsM.outstanding w b → a = b).
Proof.
  cbv zeta.
  assert (Hw : TabsM.reachable Scenario.same value_lt Scenario.getFieldOf
                 Scenario.quote Scenario.number Scenario.loaded_page).
  { by exists [TabsM.EvArrive 1 Scenario.mixed_rows true]. }
  pose proof (refresh_guard Scenario.same value_lt Scenario.getFieldOf
                Scenario.quote Scenario.number Scenario.loaded_page Hw)
    as (_ & H2 & _ & _ & _ & _ & H7).
  split_and!; [exact Hw | exact H2 | exact H7].
Defined.

(* ===================================================================== *)
(** * Part III: further properties of the code *)
(* ===================================================================== *)

(** ** Deriving the shown rows again *)

Section Rederive.

Context {Callable : Type}.
Variable same : Callable -> Callable -> bool.
Variable call : Callable -> Obj -> bool.
Variable key_lt : option Value -> option Value -> bool.
Variable getField : Obj -> Field -> option Value.
Implicit Types (h : Heap) (t : TableM.Table Callable).

Lemma processData_stale h t (s : list loc) (n : nat) :
  TableM._processData call key_lt getField h
    (TableM.set_shown n (TableM.set_shownData s t))
  = TableM._processData call key_lt getField h t.
Proof.
  unfold TableM._processData, TableM.process_pass. simpl.
  destruct (TableM.process_loop _ _ _ _ _ _ _) as [acc k]. by destruct t.
Qed.

Lemma processData_shape h t :
  ∃ s n, TableM._processData call key_lt getField h t
         = TableM.set_shown n (TableM.set_shownData s t).
Proof.
  unfold TableM._processData, TableM.process_pass.
  destruct (TableM.process_loop _ _ _ _ _ _ _) as [acc k].
  unfold TableM._sortData. simpl.
  destruct (TableM.sortField t) as [F|]; eexists _, _; by destruct t.
Qed.

Lemma processData_idem h t :
  TableM._processData call key_lt getField h
    (TableM._processData call key_lt getField h t)
  = TableM._processData call key_lt getField h t.
Proof.
  destruct (processData_shape h t) as (s & n & E).
  rewrite E at 1. rewrite processData_stale. done.
Qed.

(** X1.  [_processData] derives the shown rows from [data], the filter and
    the sort alone: what was shown before, and the count of it, make no
    difference, so deriving twice is deriving once, and a batch without rows
    that does not clear only derives the shown rows again. *)
Theorem processData_rederives h t (s : list loc) (n : nat) :
  TableM._processData call key_lt getField h
    (TableM.set_shown n (TableM.set_shownData s t))
  = TableM._processData call key_lt getField h t
  ∧ TableM._processData call key_lt getField h
      (TableM._processData call key_lt getField h t)
    = TableM._processData call key_lt getField h t
  ∧ TableM._setData call key_lt getField h t [] false
    = (h, TableM._processData call key_lt getField h t).
Proof.
  split; [apply processData_stale|]. split; [apply processData_idem|done].
Qed.

End Rederive.

(** ** Sorting what is sorted *)

Section SortedInput.

Context {A K : Type}.
Variable lt : K -> K -> bool.
Variable key : A -> K.

Lemma stable_sort_sorted_id (l : list A) :
  Sorted (PySort.ascending lt key) l → PySort.stable_sort lt key l = l.
Proof.
  induction 1 as [|x l Hs IH Hhd]; [done|].
  simpl. rewrite IH. destruct Hhd as [|y l Hxy]; [done|].
  simpl. unfold PySort.ascending in Hxy. by rewrite Hxy.
Qed.

Lemma sort_sorted_id (r : bool) (l : list A) :
  Sorted (if r then flip (PySort.ascending lt key) else PySort.ascending lt key) l →
  PySort.sort lt key r l = l.
Proof.
  unfold PySort.sort. destruct r; [|apply stable_sort_sorted_id].
  intros Hs. rewrite stable_sort_sorted_id; [apply rev_involutive|].
  rewrite rev_alt. by apply (Sorted_reverse (flip (PySort.ascending lt key))).
Qed.

End SortedInput.

Section Resort.

Context {Callable : Type}.
Variable key_lt : option Value -> option Value -> bool.
Variable getField : Obj -> Field -> option Value.
Implicit Types (h : Heap) (t : TableM.Table Callable).


End Resort.


(** ** The counters of a table *)

Section Counters.

Context {Callable : Type}.
Variable same : Callable -> Callable -> bool.
Variable call : Callable -> Obj -> bool.
Variable key_lt : option Value -> option Value -> bool.
Variable getField : Obj -> Field -> option Value.
Variable quote : string -> string.
Variable number : Z -> string.
Implicit Types (h : Heap) (t : TableM.Table Callable) (rows : list loc).

Lemma processData_counted h t :
  TableM.total t = List.length (TableM.data t) →
  let t' := TableM._processData call key_lt getField h t in
  counted t' ∧ (TableM.shown t' ≤ TableM.total t')%nat.
Proof.
  intros Ht. cbv zeta.
  destruct (processData_shown call key_lt getField h t) as [Hp Hn].
  destruct (processData_frame call key_lt getField h t)
    as (_ & _ & Hd & _ & _ & _ & _ & _ & Htot).
  unfold counted. rewrite Htot, Hd, Hn. split; [done|].
  rewrite Hp, length_take, Ht.
  pose proof (filter_length_le
                (TableM.accepted call h (TableM.filter t)) (TableM.data t)).
  lia.
Qed.

Lemma setData_counted h t rows clr :
  counted t →
  let t' := (TableM._setData call key_lt getField h t rows clr).2 in
  counted t' ∧ (TableM.shown t' ≤ TableM.total t')%nat.
Proof.
  intros [Ht _]. cbv zeta. rewrite setData_unfold. cbn [snd].
  apply processData_counted. unfold TableM.add_data.
  destruct (foldl_add_datum h (if clr then TableM.clear t else t) rows)
    as (Hd & Htot & _). cbv zeta in *.
  rewrite Hd, Htot, length_app. by destruct clr; simpl; rewrite ?Ht.
Qed.

(** X3.  [total] is the length of [data] and [shown] the length of
    [_shownData] in a new table, and every operation of a table keeps it so.
    After [_setData], and after a [setFilter] that changes the filter, the
    shown count is at most the total; [clear] zeroes the total and leaves
    the shown count as it was. *)
Theorem counters_count h t (f : option Callable) (F : Field) (obj : loc)
    (rows : list loc) (clr : bool) (fs : list Field) (Hc : counted t) :
  counted (TableM.init Callable fs)
  ∧ counted (TableM.setFilter same call key_lt getField h t f)
  ∧ counted (TableM.setSort key_lt getField h t F)
  ∧ counted (TableM._selectRow quote number h t obj).2
  ∧ counted (TableM.clear t)
  ∧ counted (TableM.refresh call key_lt getField h t).2
  ∧ (let t' := (TableM._setData call key_lt getField h t rows clr).2 in
     counted t' ∧ (TableM.shown t' ≤ TableM.total t')%nat)
  ∧ (TableM.filter_ne same f (TableM.filter t) = true →
     let t' := TableM.setFilter same call key_lt getField h t f in
     (TableM.shown t' ≤ TableM.total t')%nat)
  ∧ (TableM.total (TableM.clear t) = 0%nat
     ∧ TableM.shown (TableM.clear t) = TableM.shown t).
Proof.
  pose proof Hc as [Ht Hs].
  split; [done|]. split.
  { unfold TableM.setFilter. destruct (TableM.filter_ne same f _); [|done].
    by apply processData_counted. }
  split.
  { unfold TableM.setSort. set (u := if decide _ then _ else _).
    assert (Hu : counted u) by (subst u; by destruct (decide _)).
    destruct Hu as [Hut Hus].
    destruct (sortData_frame key_lt getField h u) as (_&_&Hd&Hsh&Htot&_).
    pose proof (sortData_perm key_lt getField h u) as Hp.
    unfold counted. by rewrite Htot, Hd, Hsh, Hp. }
  split.
  { destruct (selectRow_frame quote number h t obj)
      as (Hd & Hsd & Hsh & _ & Htot & _).
    cbv zeta in *. unfold counted. by rewrite Htot, Hd, Hsh, Hsd. }
  split; [done|]. split.
  { by apply setData_counted. }
  split; [by apply setData_counted|]. split; [|done].
  intros Hne. cbv zeta. unfold TableM.setFilter. rewrite Hne.
  by apply processData_counted.
Qed.

End Counters.

Lemma counters_count_witness :
  counted Scenario.dated_selected.2
  ∧ counted (TableM.clear Scenario.dated_selected.2)
  ∧ TableM.shown (TableM.clear Scenario.dated_selected.2) = 3%nat.
Proof.
  assert (Hc : counted Scenario.dated_selected.2) by (by vm_compute).
  pose proof (counters_count Scenario.same Scenario.call value_lt
                TableM._getField Scenario.quote Scenario.number
                Scenario.dated_selected.1 Scenario.dated_selected.2
                None Scenario.dateField 0%nat [] true [] Hc)
    as (_ & _ & _ & _ & Hclear & _ & _ & _ & _ & Hshown).
  split_and!; [exact Hc | exact Hclear |].
  rewrite Hshown. by vm_compute.
Defined.

(** ** The keys the page writes into a row *)

Lemma strip_obj_set_private (k : string) (v : Value) (o : Obj) :
  private k = true →
  strip_private (VObj (set_attr k v o)) = strip_private (VObj o).
Proof.
  intros Hk. cbn [strip_private]. f_equal.
  induction o as [|[k0 w] o IH]; cbn [set_attr flat_map fst snd].
  - by rewrite Hk.
  - destruct (String.eqb k0 k) eqn:E; cbn [flat_map fst snd].
    + apply String.eqb_eq in E. subst k0. by rewrite Hk.
    + by rewrite IH.
Qed.

Lemma strip_obj_del_private (k : string) (o : Obj) :
  private k = true →
  strip_private (VObj (del_attr k o)) = strip_private (VObj o).
Proof.
  intros Hk. cbn [strip_private]. f_equal.
  induction o as [|[k0 w] o IH]; cbn [del_attr flat_map fst snd]; [done|].
  destruct (String.eqb k0 k) eqn:E; cbn [flat_map fst snd].
  - apply String.eqb_eq in E. subst k0. by rewrite Hk.
  - by rewrite IH.
Qed.

Lemma strip_after_add_data {Callable : Type} (h : Heap)
    (t : TableM.Table Callable) (rows : list loc) (l : loc) :
  strip_private (VObj (deref (foldl TableM.add_datum (h, t) rows).1 l))
  = strip_private (VObj (deref h l)).
Proof.
  revert h t. induction rows as [|r rows IH]; intros h t; [done|].
  cbn [foldl].
  change (TableM.add_datum (h, t) r) with
    (write h r "_uid" (VNum (Z.of_nat (TableM.total t))),
     TableM.set_total (TableM.total t + 1)
       (TableM.set_data (TableM.data t ++ [r]) t)).
  rewrite IH. destruct (decide (r = l)) as [->|Hne].
  - rewrite deref_write_eq. by apply strip_obj_set_private.
  - by rewrite deref_write_ne.
Qed.

Lemma strip_after_setData {Callable : Type} (call : Callable → Obj → bool)
    (key_lt : option Value → option Value → bool)
    (getField : Obj → Field → option Value) (h : Heap)
    (t : TableM.Table Callable) (rows : list loc) (clr : bool) (l : loc) :
  strip_private
    (VObj (deref (TableM._setData call key_lt getField h t rows clr).1 l))
  = strip_private (VObj (deref h l)).
Proof.
  rewrite setData_unfold. cbn [fst]. apply strip_after_add_data.
Qed.

Lemma strip_after_selectRow {Callable : Type} (quote : string → string)
    (number : Z → string) (h : Heap) (t : TableM.Table Callable) (obj l : loc) :
  strip_private (VObj (deref (TableM._selectRow quote number h t obj).1 l))
  = strip_private (VObj (deref h l)).
Proof.
  assert (Hdel : ∀ h0 sel,
            strip_private (VObj (deref (delete_key h0 sel "_selected") l))
            = strip_private (VObj (deref h0 l))).
  { intros h0 sel. destruct (decide (sel = l)) as [->|Hne].
    - rewrite deref_delete_eq. by apply strip_obj_del_private.
    - by rewrite deref_delete_ne. }
  assert (Hwr : ∀ h0,
            strip_private (VObj (deref (write h0 obj "_selected" (VBool true)) l))
            = strip_private (VObj (deref h0 l))).
  { intros h0. destruct (decide (obj = l)) as [->|Hne].
    - rewrite deref_write_eq. by apply strip_obj_set_private.
    - by rewrite deref_write_ne. }
  unfold TableM._selectRow. destruct (TableM._selected t) as [sel|]; cbn [fst].
  - destruct (py_eq _ _); cbn [fst]; [apply Hdel|]. by rewrite Hwr, Hdel.
  - apply Hwr.
Qed.

Lemma checkAny_strip (s : Searcher) (v : Value) :
  SearcherM._checkAny s (strip_private v) = SearcherM._checkAny s v.
Proof.
  induction v as [|b|n|str|l IH|o IH] using Value_nested_ind; try done.
  - cbn [strip_private SearcherM._checkAny].
    induction IH as [|x l Hx _ IHl]; [done|].
    cbn [map existsb]. by rewrite Hx, IHl.
  - cbn [strip_private SearcherM._checkAny].
    induction IH as [|[k x] o Hx _ IHo]; [done|].
    cbn [flat_map existsb fst snd] in *.
    destruct (private k) eqn:Ek; cbn [app existsb negb andb orb fst snd];
      [done|].
    by rewrite Ek, Hx, IHo.
Qed.

Lemma search_strip (s : Searcher) (o : Obj) :
  SearcherM.search s o = SearcherM._checkAny s (strip_private (VObj o)).
Proof. by rewrite checkAny_strip. Qed.

Section Bookkeeping.

Context {Callable : Type}.
Variable call : Callable -> Obj -> bool.
Variable key_lt : option Value -> option Value -> bool.
Variable getField : Obj -> Field -> option Value.
Variable quote : string -> string.
Variable number : Z -> string.
Implicit Types (h : Heap) (t : TableM.Table Callable) (rows : list loc).

(** X4.  A search sees a row as it is without the keys that start with an
    underscore, at every depth; so the ids that [_setData] writes into the
    rows and the flag that [_selectRow] sets and deletes change the answer
    of no search on any row. *)
Theorem search_ignores_bookkeeping (s : Searcher) h t rows (clr : bool)
    (obj l : loc) (o : Obj) :
  SearcherM.search s o = SearcherM._checkAny s (strip_private (VObj o))
  ∧ SearcherM.search s
      (deref (TableM._setData call key_lt getField h t rows clr).1 l)
    = SearcherM.search s (deref h l)
  ∧ SearcherM.search s (deref (TableM._selectRow quote number h t obj).1 l)
    = SearcherM.search s (deref h l).
Proof.
  split; [apply search_strip|].
  split; rewrite !search_strip.
  - by rewrite strip_after_setData.
  - by rewrite strip_after_selectRow.
Qed.

(** X5.  The text of the details pane does not show what the page wrote
    into the row: after [_setData] has given the rows their ids and after
    [_selectRow] has moved the flag, the details of every row are the
    details it had before. *)
Theorem details_ignore_bookkeeping h t rows (clr : bool) (obj l : loc) :
  TableM.details quote number
    (TableM._setData call key_lt getField h t rows clr).1 l
  = TableM.details quote number h l
  ∧ TableM.details quote number (TableM._selectRow quote number h t obj).1 l
    = TableM.details quote number h l
  ∧ TableM._stringify quote number
      (deref (TableM._selectRow quote number h t obj).1 l)
    = TableM._stringify quote number (deref h l).
Proof.
  unfold TableM.details. split_and!.
  - by rewrite strip_after_setData.
  - by rewrite strip_after_selectRow.
  - by rewrite !stringify_replacer, strip_after_selectRow.
Qed.

End Bookkeeping.

(** ** Longer terms, fewer rows *)

Lemma lower_app (a b : string) :
  PyStr.lower (a +:+ b) = PyStr.lower a +:+ PyStr.lower b.
Proof. induction a as [|c a IH]; simpl; [done|]. by rewrite IH. Qed.

Lemma app_assoc_string (a b c : string) : (a +:+ b) +:+ c = a +:+ b +:+ c.
Proof.
  induction a as [|x a IH]; [done|].
  change (String x ((a +:+ b) +:+ c) = String x (a +:+ b +:+ c)).
  by rewrite IH.
Qed.

Lemma Substring_trans (a b c : string) :
  Substring a b → Substring b c → Substring a c.
Proof.
  intros (p & q & ->) (p' & q' & ->). exists (p' +:+ p), (q +:+ q').
  by rewrite !app_assoc_string.
Qed.

Lemma Substring_lower (a b : string) :
  Substring a b → Substring (PyStr.lower a) (PyStr.lower b).
Proof.
  intros (p & q & ->). exists (PyStr.lower p), (PyStr.lower q).
  by rewrite !lower_app.
Qed.

Lemma Substring_quoted (body : string) :
  Substring body (PyStr.dquote +:+ body +:+ PyStr.dquote).
Proof. by exists PyStr.dquote, PyStr.dquote. Qed.

Lemma setSearch_plain (s0 : Searcher) (t : string) :
  caseSensitive (SearcherM.setSearch s0 (Some t)) = false →
  SearcherM.setSearch s0 (Some t) =
    {| searchTerm := Some (PyStr.lower t); caseSensitive := false |}.
Proof.
  unfold SearcherM.setSearch.
  by destruct (PyStr.startswith PyStr.dquote t && PyStr.endswith PyStr.dquote t).
Qed.

(** The term of a search occurs in the text that was typed. *)
Lemma setSearch_exact (s0 : Searcher) (t : string) :
  caseSensitive (SearcherM.setSearch s0 (Some t)) = true →
  ∃ body, SearcherM.setSearch s0 (Some t) =
            {| searchTerm := Some body; caseSensitive := true |}
          ∧ Substring body t.
Proof.
  intros Hcs.
  assert (Hw : PyStr.startswith PyStr.dquote t && PyStr.endswith PyStr.dquote t
               = true).
  { unfold SearcherM.setSearch in Hcs.
    by destruct (PyStr.startswith PyStr.dquote t
                 && PyStr.endswith PyStr.dquote t). }
  apply wrapped_in_quotes in Hw as [->|[body ->]].
  - exists "". split; [done|]. by exists "", PyStr.dquote.
  - exists body. split; [apply setSearch_quoted|apply Substring_quoted].
Qed.

Lemma search_weaker (s1 s2 : Searcher) (o : Obj) :
  (∀ str, matches s2 str → matches s1 str) →
  SearcherM.search s2 o = true → SearcherM.search s1 o = true.
Proof.
  intros Hm. rewrite !search_reachable. intros (str & Hr & Hs).
  exists str. split; [done|]. by apply Hm.
Qed.

Lemma matches_exact (term str : string) :
  matches {| searchTerm := Some term; caseSensitive := true |} str
  ↔ Substring term str.
Proof.
  unfold matches. cbn. split; [by intros (? & [= <-] & H)|]. by exists term.
Qed.

Lemma matches_lower (term str : string) :
  matches {| searchTerm := Some term; caseSensitive := false |} str
  ↔ Substring term (PyStr.lower str).
Proof.
  unfold matches. cbn. split; [by intros (? & [= <-] & H)|]. by exists term.
Qed.



(** ** A selection and a refresh *)

Section StaleSelection.

Context {Callable : Type}.
Variable call : Callable -> Obj -> bool.
Variable key_lt : option Value -> option Value -> bool.
Variable getField : Obj -> Field -> option Value.
Variable quote : string -> string.
Variable number : Z -> string.
Implicit Types (h : Heap) (t : TableM.Table Callable) (rows : list loc).

(** X7.  A refresh does not drop the selection.  When the rows of a table
    are replaced by a batch of new objects, the row that was selected stays
    the selected one and its details stay on display, though the table
    holds it no more.  The first click on the new row at the position the
    selected row had does not select it: the rows are compared by their
    ids, so the click clears the selection and the details, and the clicked
    row is flagged no more than it was. *)
Theorem selection_outlives_refresh h t (sel obj : loc) rows (i : nat)
    (Hsel : TableM._selected t = Some sel)
    (Hid : read h sel "_uid" = Some (VNum (Z.of_nat i)))
    (Hnd : NoDup rows)
    (Hold : sel ∉ rows)
    (Hobj : rows !! i = Some obj) :
  let ht := TableM._setData call key_lt getField h t rows true in
  let hc := TableM._selectRow quote number ht.1 ht.2 obj in
  (TableM._selected ht.2 = Some sel
   ∧ TableM.detailSelected ht.2 = TableM.detailSelected t
   ∧ sel ∉ TableM.data ht.2)
  ∧ (TableM._selected hc.2 = None
     ∧ TableM.detailSelected hc.2 = Some ""
     ∧ flagged hc.1 obj = flagged h obj
     ∧ flagged hc.1 sel = false).
Proof.
  cbv zeta.
  destruct (setData_spec call key_lt getField h t rows true)
    as (Hd & _ & Hfr & Hids & _ & _ & _ & _ & Hs & Hdet).
  cbv zeta in *.
  set (ht := TableM._setData call key_lt getField h t rows true) in *.
  assert (Hne : obj ≠ sel).
  { intros ->. apply Hold. by eapply list_elem_of_lookup_2. }
  split.
  { rewrite Hs, Hdet, Hd. done. }
  unfold TableM._selectRow. rewrite Hs, Hsel.
  rewrite !read_delete_other by (by right).
  rewrite (Hfr sel "_uid") by (by left).
  rewrite (Hids Hnd i obj Hobj), Hid. cbn [Nat.add py_eq value_eqb].
  rewrite Z.eqb_refl.
  cbn [fst snd TableM._selected TableM.detailSelected TableM.set_selected].
  split_and!; [done|done| |].
  - rewrite flagged_delete. destruct (decide (obj = sel)); [done|].
    unfold flagged. by rewrite (Hfr obj "_selected") by (by right).
  - rewrite flagged_delete. by destruct (decide (sel = sel)).
Qed.

End StaleSelection.

Lemma selection_outlives_refresh_witness :
  let h := (TabsM.alloc Scenario.dated_selected.1 3 Scenario.date_rows).1 in
  let t := Scenario.dated_selected.2 in
  let ht := TableM._setData Scenario.call value_lt TableM._getField h t
              [3; 4; 5]%nat true in
  let hc := TableM._selectRow Scenario.quote Scenario.number ht.1 ht.2 3%nat in
  TableM._selected t = Some 0%nat
  ∧ TableM.data ht.2 = [3; 4; 5]%nat
  ∧ TableM._selected hc.2 = None.
Proof.
  cbv zeta.
  assert (Hsel : TableM._selected Scenario.dated_selected.2 = Some 0%nat)
    by (by vm_compute).
  assert (Hid : read (TabsM.alloc Scenario.dated_selected.1 3
                        Scenario.date_rows).1 0%nat "_uid"
                = Some (VNum (Z.of_nat 0))) by (by vm_compute).
  assert (Hnd : NoDup [3; 4; 5]%nat)
    by (apply (bool_decide_unpack (NoDup [3; 4; 5]%nat)); vm_compute; exact I).
  assert (Hold : 0%nat ∉ [3; 4; 5]%nat)
    by (rewrite !not_elem_of_cons; split_and!; [lia..|apply not_elem_of_nil]).
  assert (Hobj : [3; 4; 5]%nat !! 0%nat = Some 3%nat) by done.
  split_and!; [exact Hsel|by vm_compute|].
  exact (proj1 (proj2
    (selection_outlives_refresh Scenario.call value_lt TableM._getField
       Scenario.quote Scenario.number _ _ 0%nat 3%nat [3; 4; 5]%nat 0%nat
       Hsel Hid Hnd Hold Hobj))).
Defined.

(** ** The ids of the rows of the page *)

Section Numbered.

Variable same : TabsM.Method -> TabsM.Method -> bool.
Variable key_lt : option Value -> option Value -> bool.
Variable getFieldOf : string -> Obj -> Field -> option Value.
Variable quote : string -> string.
Variable number : Z -> string.

Local Abbreviation step := (TabsM.step same key_lt getFieldOf quote number).
Local Abbreviation reachable :=
  (TabsM.reachable same key_lt getFieldOf quote number).

(** A table operation that keeps the rows and the total and leaves the
    shown count right, on a heap whose ids are those of before. *)
Lemma tab_numbered_keep (h h' : Heap) (n n' : nat) (tab : TabsM.Tab)
    (t' : TabsM.Table) :
  (n ≤ n')%nat →
  (∀ l, (l < n)%nat → read h' l "_uid" = read h l "_uid") →
  TableM.data t' = TableM.data (TabsM.table tab) →
  TableM.total t' = TableM.total (TabsM.table tab) →
  TableM.shown t' = List.length (TableM._shownData t') →
  tab_numbered h n tab → tab_numbered h' n' (TabsM.set_table t' tab).
Proof.
  intros Hn Hh Hd Ht Hs ([Hc _] & Hnd & Hids & Hlt).
  unfold tab_numbered, counted, ids_are_positions. cbn [TabsM.table TabsM.set_table].
  rewrite Hd, Ht. split_and!; try done.
  - intros i l Hl. rewrite Hh; [by apply Hids|].
    apply Hlt. by eapply list_elem_of_lookup_2.
  - intros l Hl. apply Hlt in Hl. lia.
Qed.

Lemma tab_numbered_mono (h h' : Heap) (n n' : nat) (tab : TabsM.Tab) :
  (n ≤ n')%nat →
  (∀ l, (l < n)%nat → read h' l "_uid" = read h l "_uid") →
  tab_numbered h n tab → tab_numbered h' n' tab.
Proof.
  intros Hn Hh Hok.
  replace tab with (TabsM.set_table (TabsM.table tab) tab) by (by destruct tab).
  apply (tab_numbered_keep h h' n n'); try done. by destruct Hok as [[_ ?] _].
Qed.

Lemma tab_numbered_setFilter (s : Searcher) (h : Heap) (n : nat)
    (tab : TabsM.Tab) (f : option TabsM.Method) :
  tab_numbered h n tab →
  tab_numbered h n
    (TabsM.set_table
       (TableM.setFilter same (TabsM.call s) key_lt
          (getFieldOf (TabsM.Data_tab tab)) h (TabsM.table tab) f) tab).
Proof.
  intros Hok. unfold TableM.setFilter.
  destruct (TableM.filter_ne same f _); [|by destruct tab].
  set (u := TableM.set_filter f (TabsM.table tab)).
  destruct (processData_frame (TabsM.call s) key_lt
              (getFieldOf (TabsM.Data_tab tab)) h u)
    as (_ & _ & Hd & _ & _ & _ & _ & _ & Htot).
  destruct (processData_shown (TabsM.call s) key_lt
              (getFieldOf (TabsM.Data_tab tab)) h u) as [_ Hn].
  by apply (tab_numbered_keep h h n n).
Qed.

Lemma tab_numbered_setSort (h : Heap) (n : nat) (tab : TabsM.Tab) (F : Field) :
  tab_numbered h n tab →
  tab_numbered h n
    (TabsM.set_table
       (TableM.setSort key_lt (getFieldOf (TabsM.Data_tab tab)) h
          (TabsM.table tab) F) tab).
Proof.
  intros Hok. pose proof Hok as [[_ Hc] _]. unfold TableM.setSort.
  set (u := if decide _ then _ else _).
  assert (Hu : TableM._shownData u = TableM._shownData (TabsM.table tab)
               ∧ TableM.data u = TableM.data (TabsM.table tab)
               ∧ TableM.total u = TableM.total (TabsM.table tab)
               ∧ TableM.shown u = TableM.shown (TabsM.table tab)).
  { subst u. by destruct (decide _). }
  destruct Hu as (E1 & E2 & E3 & E4).
  destruct (sortData_frame key_lt (getFieldOf (TabsM.Data_tab tab)) h u)
    as (_&_&Hd&Hsh&Htot&_).
  pose proof (sortData_perm key_lt (getFieldOf (TabsM.Data_tab tab)) h u) as Hp.
  apply (tab_numbered_keep h h n n); try done; try congruence.
  by rewrite Hsh, Hp, E4, E1.
Qed.

Lemma refresh_numbered (w : TabsM.World) :
  numbered w → numbered (TabsM.refresh w).1.
Proof.
  unfold numbered, TabsM.refresh. intros Hok.
  destruct (TabsM._refreshing (TabsM.page w)); [done|]. cbn.
  apply Forall_fmap. eapply Forall_impl; [exact Hok|].
  intros tab ([_ Hs] & _). split_and!; cbn.
  - done.
  - constructor.
  - by intros i l Hl.
  - intros l Hl. by apply elem_of_nil in Hl.
Qed.

Lemma settle_numbered (w : TabsM.World) (m : nat) (ok : bool) :
  numbered w → numbered (TabsM.settle w m ok).
Proof.
  unfold numbered, TabsM.settle. intros Hok.
  destruct (TabsM.store w !! m) as [[[| |]|]|]; try done. cbn.
  by rewrite (proj1 (run_callbacks_tabs _ _)).
Qed.

Lemma tab_numbered_arrive (s : Searcher) (h : Heap) (n : nat) (tab : TabsM.Tab)
    (rows : list Obj) (clr : bool) :
  tab_numbered h n tab →
  let hl := TabsM.alloc h n rows in
  let ht := TableM._setData (TabsM.call s) key_lt
              (getFieldOf (TabsM.Data_tab tab)) hl.1 (TabsM.table tab) hl.2 clr in
  tab_numbered ht.1 (n + List.length rows) (TabsM.set_table ht.2 tab)
  ∧ ∀ l, (l < n)%nat → read ht.1 l "_uid" = read h l "_uid".
Proof.
  intros (Hc & Hnd & Hids & Hlt). cbv zeta.
  destruct (alloc_spec h n rows) as [Hls Hh].
  set (hl := TabsM.alloc h n rows) in *.
  destruct (setData_spec (TabsM.call s) key_lt
              (getFieldOf (TabsM.Data_tab tab)) hl.1 (TabsM.table tab) hl.2 clr)
    as (Hd & _ & Hfr & Hnew & _).
  destruct (setData_counted (TabsM.call s) key_lt
              (getFieldOf (TabsM.Data_tab tab)) hl.1 (TabsM.table tab) hl.2 clr Hc)
    as [Hc' _].
  cbv zeta in *.
  set (ht := TableM._setData _ _ _ hl.1 (TabsM.table tab) hl.2 clr) in *.
  assert (Hseq : NoDup hl.2) by (rewrite Hls; apply NoDup_seq).
  assert (Hold : ∀ l, (l < n)%nat → read ht.1 l "_uid" = read h l "_uid").
  { intros l Hl. rewrite Hfr.
    - unfold read, deref. by rewrite Hh.
    - left. rewrite Hls, elem_of_seq. lia. }
  split; [|exact Hold].
  set (old := if clr then [] else TableM.data (TabsM.table tab)) in *.
  assert (Hsub : ∀ l, l ∈ old → l ∈ TableM.data (TabsM.table tab)).
  { subst old. destruct clr; [|done]. intros l Hl. by apply elem_of_nil in Hl. }
  assert (Hlen : List.length old
                 = if clr then 0%nat else TableM.total (TabsM.table tab)).
  { subst old. destruct clr; [done|]. symmetry. apply Hc. }
  unfold tab_numbered. cbn [TabsM.table TabsM.set_table]. rewrite Hd.
  split_and!.
  - exact Hc'.
  - apply NoDup_app. split_and!.
    + subst old. destruct clr; [constructor|done].
    + intros l Hl Hl'. apply Hsub, Hlt in Hl.
      rewrite Hls, elem_of_seq in Hl'. lia.
    + exact Hseq.
  - intros i l Hil. rewrite Hd in Hil.
    apply lookup_app_Some in Hil as [Hil|[Hge Hil]].
    + assert (Hl : l ∈ old) by (by eapply list_elem_of_lookup_2).
      rewrite Hold by (by apply Hlt, Hsub).
      apply Hids. subst old. by destruct clr.
    + rewrite (Hnew Hseq _ _ Hil), <- Hlen. do 3 f_equal. lia.
  - intros l [Hl|Hl]%elem_of_app.
    + apply Hsub, Hlt in Hl. lia.
    + rewrite Hls, elem_of_seq in Hl. lia.
Qed.

Lemma arrive_numbered (w : TabsM.World) (i : nat) (rows : list Obj)
    (clr : bool) :
  numbered w → numbered (TabsM.arrive key_lt getFieldOf w i rows clr).
Proof.
  unfold numbered, TabsM.arrive. intros Hok.
  destruct (TabsM.tabs (TabsM.page w) !! i) as [tab|] eqn:Hi; [|done].
  pose proof (Forall_lookup_1 _ _ _ _ Hok Hi) as Htab.
  destruct (tab_numbered_arrive (TabsM.searcher (TabsM.page w))
              (TabsM.heap w) (TabsM.next w) tab rows clr Htab) as [Hnew Hold].
  cbv zeta in Hnew, Hold.
  destruct (TabsM.alloc (TabsM.heap w) (TabsM.next w) rows) as [h1 ls].
  cbn [fst snd] in Hnew, Hold.
  destruct (TableM._setData _ _ _ h1 (TabsM.table tab) ls clr) as [h2 t2].
  cbn [fst snd] in Hnew, Hold. cbn.
  apply Forall_insert; [|done].
  eapply Forall_impl; [exact Hok|]. intros tab'.
  apply tab_numbered_mono; [lia|done].
Qed.

Lemma searchAll_numbered (w : TabsM.World) (text : option string) :
  numbered w → numbered (TabsM.searchAll same key_lt getFieldOf w text).
Proof.
  unfold numbered, TabsM.searchAll. intros Hok. cbn.
  apply Forall_fmap. eapply Forall_impl; [exact Hok|].
  intros tab. apply tab_numbered_setFilter.
Qed.

Lemma searchCurrent_numbered (w : TabsM.World) (text active : option string) :
  numbered w →
  numbered (TabsM.searchCurrent same key_lt getFieldOf w text active).
Proof.
  unfold numbered, TabsM.searchCurrent. intros Hok.
  set (truthy := match text with Some (String _ _) => true | _ => false end).
  destruct truthy, (TabsM.currentTab _ active) as [cur|]; cbn; try done;
    (apply Forall_fmap; eapply Forall_impl; [exact Hok|]; intros tab Htab; cbn;
     try destruct (String.eqb _ _); by apply tab_numbered_setFilter).
Qed.

Lemma click_header_numbered (w : TabsM.World) (i : nat) (F : Field) :
  numbered w → numbered (TabsM.click_header key_lt getFieldOf w i F).
Proof.
  unfold numbered, TabsM.click_header. intros Hok.
  destruct (TabsM.tabs (TabsM.page w) !! i) as [tab|] eqn:Hi; [|done]. cbn.
  apply Forall_insert; [done|].
  apply tab_numbered_setSort. by eapply Forall_lookup_1.
Qed.

Lemma selectRow_uid {Callable : Type} (h : Heap) (t : TableM.Table Callable)
    (obj l : loc) :
  read (TableM._selectRow quote number h t obj).1 l "_uid" = read h l "_uid".
Proof.
  unfold TableM._selectRow. destruct (TableM._selected t) as [sel|]; cbn [fst].
  - destruct (py_eq _ _); cbn [fst].
    + by rewrite read_delete_other by (by right).
    + by rewrite read_write_other, read_delete_other by (by right).
  - by rewrite read_write_other by (by right).
Qed.

Lemma click_row_numbered (w : TabsM.World) (i : nat) (obj : loc) :
  numbered w → numbered (TabsM.click_row quote number w i obj).
Proof.
  unfold numbered, TabsM.click_row. intros Hok.
  destruct (TabsM.tabs (TabsM.page w) !! i) as [tab|] eqn:Hi; [|done].
  destruct (bool_decide _); [|done].
  pose proof (Forall_lookup_1 _ _ _ _ Hok Hi) as Htab.
  pose proof (selectRow_uid (TabsM.heap w) (TabsM.table tab) obj) as Hu.
  destruct (selectRow_frame quote number (TabsM.heap w) (TabsM.table tab) obj)
    as (Hd & Hsd & Hsh & _ & Htot & _).
  cbv zeta in *.
  destruct (TableM._selectRow quote number (TabsM.heap w) (TabsM.table tab) obj)
    as [h' t']. cbn [fst snd] in *. cbn.
  apply Forall_insert.
  - eapply Forall_impl; [exact Hok|]. intros tab'.
    apply tab_numbered_mono; [lia|]. intros l _. apply Hu.
  - apply (tab_numbered_keep (TabsM.heap w) h' (TabsM.next w) (TabsM.next w));
      try done.
    rewrite Hsh, Hsd. by destruct Htab as [[_ ?] _].
Qed.

Lemma step_numbered (w : TabsM.World) (e : TabsM.Event) :
  numbered w → numbered (step w e).
Proof.
  destruct e; simpl.
  - apply refresh_numbered.
  - apply settle_numbered.
  - apply arrive_numbered.
  - apply searchAll_numbered.
  - apply searchCurrent_numbered.
  - apply click_header_numbered.
  - apply click_row_numbered.
Qed.

Lemma init_numbered : numbered TabsM.init.
Proof.
  unfold numbered. cbn.
  repeat constructor; cbn; try done;
    intros l Hl; by apply elem_of_nil in Hl.
Qed.

Lemma reachable_numbered (w : TabsM.World) : reachable w → numbered w.
Proof.
  intros [es ->]. unfold TabsM.run.
  induction es as [|e es IH] using rev_ind; [apply init_numbered|].
  rewrite foldl_app. cbn [foldl]. by apply step_numbered.
Qed.

(** X8.  In every state the page reaches, the rows of a fetch being new
    objects, each of its tables has [total] rows and [shown] shown rows, its
    rows are distinct objects, and the id of each row is its position in
    [data].  So two rows of a table have equal ids only when they are the
    same row, which is what [_selectRow] relies on when it compares the
    clicked row with the selected one. *)
Theorem page_rows_numbered (w : TabsM.World) (tab : TabsM.Tab)
    (Hw : TabsM.reachable same key_lt getFieldOf quote number w)
    (Htab : tab ∈ TabsM.tabs (TabsM.page w)) :
  let t := TabsM.table tab in
  counted t
  ∧ NoDup (TableM.data t)
  ∧ ids_are_positions (TabsM.heap w) t
  ∧ ∀ a b, a ∈ TableM.data t → b ∈ TableM.data t →
      (py_eq (read (TabsM.heap w) a "_uid") (read (TabsM.heap w) b "_uid") = true
       ↔ a = b).
Proof.
  cbv zeta. apply reachable_numbered in Hw.
  unfold numbered in Hw. rewrite Forall_forall in Hw.
  destruct (Hw tab Htab) as (Hc & Hnd & Hids & _).
  split_and!; try done.
  intros a b Ha Hb. split; [|intros ->; apply py_eq_refl].
  apply list_elem_of_lookup_1 in Ha as [i Hi].
  apply list_elem_of_lookup_1 in Hb as [j Hj].
  rewrite (Hids i a Hi), (Hids j b Hj). cbn [py_eq value_eqb].
  intros Hij%Z.eqb_eq. apply Nat2Z.inj in Hij. subst j. congruence.
Qed.

End Numbered.

Lemma page_rows_numbered_witness :
  let w := Scenario.loaded_page in
  (∃ tab, TabsM.tabs (TabsM.page w) !! 1%nat = Some tab
          ∧ TableM.data (TabsM.table tab) = [0; 1]%nat
          ∧ ids_are_positions (TabsM.heap w) (TabsM.table tab)).
Proof.
  cbv zeta.
  assert (Hw : TabsM.reachable Scenario.same value_lt Scenario.getFieldOf
                 Scenario.quote Scenario.number Scenario.loaded_page).
  { by exists [TabsM.EvArrive 1 Scenario.mixed_rows true]. }
  destruct (TabsM.tabs (TabsM.page Scenario.loaded_page) !! 1%nat)
    as [tab|] eqn:Htab; [|by vm_compute in Htab].
  exists tab. split; [done|]. split.
  - injection Htab as <-. by vm_compute.
  - apply (page_rows_numbered Scenario.same value_lt Scenario.getFieldOf
             Scenario.quote Scenario.number Scenario.loaded_page tab Hw).
    by eapply list_elem_of_lookup_2.
Defined.

(** ** The view of a table *)

Lemma elems_Elem (sel : string) (a : list (string * string))
    (c : option Handler) (ch : list Node) :
  elems (Elem sel a c ch) = (sel, c) :: flat_map elems ch.
Proof. reflexivity. Qed.

Lemma texts_Elem (sel : string) (a : list (string * string))
    (c : option Handler) (ch : list Node) :
  texts (Elem sel a c ch) = flat_map texts ch.
Proof. reflexivity. Qed.

Lemma flat_map_cells_elems (row : list VNode) :
  flat_map elems (map Cell row) = [].
Proof. by induction row. Qed.

Lemma flat_map_cells_texts (row : list VNode) :
  flat_map texts (map Cell row) = [].
Proof. by induction row. Qed.

Section ViewOfTable.

Context {Callable : Type}.
Variable getField : Obj -> Field -> option Value.
Variable repr : Value -> string.
Variable toISOString : Z -> string.
Implicit Types (h : Heap) (t : TableM.Table Callable).

Local Abbreviation view := (FieldM.view repr toISOString).
Local Abbreviation _view := (ViewM._view getField repr toISOString).
Local Abbreviation rows := (ViewM.rows getField repr toISOString).
Local Abbreviation cells := (ViewM.cells getField repr toISOString).

Lemma cells_Ok (obj : Obj) (fs : list Field) :
  (∃ row, cells obj fs = Ok row)
  ↔ ∀ f, f ∈ fs → ∃ n, view f (getField obj f) = Ok n.
Proof.
  induction fs as [|f fs IH]; cbn [ViewM.cells].
  - split; [|by exists []]. intros _ f Hf. by apply elem_of_nil in Hf.
  - unfold mbind, Result_bind, mret, Result_ret. split.
    + intros [row Hrow] g Hg.
      destruct (view f (getField obj f)) as [n|e] eqn:Hf; [|done].
      destruct (cells obj fs) as [ns|e] eqn:Hfs; [|done].
      apply elem_of_cons in Hg as [->|Hg]; [by exists n|].
      by apply (proj1 IH (ex_intro _ ns eq_refl)).
    + intros Hall.
      destruct (Hall f) as [n ->]; [by left|].
      destruct (proj2 IH) as [ns ->]; [|by eexists].
      intros g Hg. apply Hall. by right.
Qed.

Lemma rows_Ok h t (objs : list loc) :
  (∃ trs, rows h t objs = Ok trs)
  ↔ ∀ obj f, obj ∈ objs → f ∈ TableM.fields t →
             ∃ n, view f (getField (deref h obj) f) = Ok n.
Proof.
  induction objs as [|obj objs IH]; cbn [ViewM.rows].
  - split; [|by exists []]. intros _ obj f Hobj. by apply elem_of_nil in Hobj.
  - unfold mbind, Result_bind, mret, Result_ret, ViewM._makeRow. split.
    + intros [trs Htrs] o f Ho Hf.
      destruct (cells (deref h obj) (TableM.fields t)) as [row|e] eqn:Hrow;
        [|done].
      destruct (rows h t objs) as [trs'|e] eqn:Hrest; [|done].
      apply elem_of_cons in Ho as [->|Ho].
      * by apply (proj1 (cells_Ok _ _) (ex_intro _ row Hrow)).
      * by apply (proj1 IH (ex_intro _ trs' eq_refl)).
    + intros Hall.
      destruct (proj2 (cells_Ok (deref h obj) (TableM.fields t))) as [row ->].
      { intros f Hf. apply Hall; [by left|done]. }
      destruct (proj2 IH) as [trs ->]; [|by eexists].
      intros o f Ho. apply Hall. by right.
Qed.

Lemma rows_elems h t (objs : list loc) (trs : list Node) :
  rows h t objs = Ok trs →
  flat_map elems trs = map (tr_of h) objs ∧ flat_map texts trs = [].
Proof.
  revert trs. induction objs as [|obj objs IH]; intros trs; cbn [ViewM.rows].
  - intros [= <-]. done.
  - unfold mbind, Result_bind, mret, Result_ret.
    destruct (ViewM._makeRow _ _ _ _ _) as [row|e]; [|done].
    destruct (rows h t objs) as [trs'|e]; [|done].
    intros [= <-]. destruct (IH trs' eq_refl) as [He Ht].
    cbn [flat_map map]. rewrite He, Ht. unfold tr_of at 2.
    destruct (flagged h obj);
      by rewrite elems_Elem, texts_Elem, flat_map_cells_elems,
                 flat_map_cells_texts.
Qed.

Lemma view_Ok h t (n : Node) :
  _view h t = Ok n →
  ∃ trs, rows h t (TableM._shownData t) = Ok trs
    ∧ n = Elem "table"
            [("class",
              "ui selectable celled unstackable single line left aligned table")]
            None
            [ Elem "thead" [] None
                [Elem "tr" [("class", "center aligned")] None
                   (map (ViewM.header t) (TableM.fields t))];
              Elem "tbody" [] None (trs ++ ViewM.notices t) ].
Proof.
  unfold ViewM._view, mbind, Result_bind, mret, Result_ret.
  destruct (rows h t (TableM._shownData t)) as [trs|e]; [|done].
  intros [= <-]. by exists trs.
Qed.

Lemma headers_handlers t (fs : list Field) :
  omap snd (flat_map elems (map (ViewM.header t) fs)) = map OnSetSort fs.
Proof.
  induction fs as [|f fs IH]; [done|].
  cbn [map flat_map]. rewrite omap_app, IH. unfold ViewM.header.
  destruct (decide _); [destruct (TableM.reversed t)|]; done.
Qed.

Lemma headers_handlers_of t (fs : list Field) :
  omap (fun e : string * option Handler =>
          if String.eqb e.1 "tr.active" then e.2 else None)
       (flat_map elems (map (ViewM.header t) fs)) = [].
Proof.
  induction fs as [|f fs IH]; [done|].
  cbn [map flat_map]. rewrite omap_app, IH. unfold ViewM.header.
  destruct (decide _); [destruct (TableM.reversed t)|]; done.
Qed.

Lemma headers_texts t (fs : list Field) :
  flat_map texts (map (ViewM.header t) fs) = map title fs.
Proof.
  induction fs as [|f fs IH]; [done|].
  cbn [map flat_map]. rewrite IH. unfold ViewM.header.
  destruct (decide _); [destruct (TableM.reversed t)|]; done.
Qed.

Lemma rows_handlers h (objs : list loc) :
  omap snd (map (tr_of h) objs) = map OnSelectRow objs.
Proof. induction objs as [|o objs IH]; [done|]. cbn. by rewrite IH. Qed.

Lemma rows_handlers_of h (objs : list loc) :
  omap (fun e : string * option Handler =>
          if String.eqb e.1 "tr.active" then e.2 else None)
       (map (tr_of h) objs)
  = map OnSelectRow (List.filter (flagged h) objs).
Proof.
  induction objs as [|o objs IH]; [done|].
  cbn [map omap List.filter]. unfold tr_of at 1. cbn [fst snd].
  destruct (flagged h o); cbn; [f_equal|]; exact IH.
Qed.

Lemma notices_handlers t :
  omap snd (flat_map elems (ViewM.notices t)) = []
  ∧ omap (fun e : string * option Handler =>
            if String.eqb e.1 "tr.active" then e.2 else None)
         (flat_map elems (ViewM.notices t)) = [].
Proof.
  unfold ViewM.notices. by destruct (_ <=? _)%nat, (_ =? _)%nat.
Qed.

(** X9.  What the view of a table offers to click, when it is drawn: a
    header for each field, in the order of the fields, that sorts on that
    field, and then a row for each shown object, in the order they are
    shown in, that selects that object; nothing else can be clicked.  The
    rows drawn as active are the shown rows that carry the selected flag. *)
Theorem view_clicks h t (n : Node) (Hn : _view h t = Ok n) :
  handlers n
  = map OnSetSort (TableM.fields t) ++ map OnSelectRow (TableM._shownData t)
  ∧ handlers_of "tr.active" n
    = map OnSelectRow (List.filter (flagged h) (TableM._shownData t)).
Proof.
  apply view_Ok in Hn as (trs & Htrs & ->).
  apply rows_elems in Htrs as [He _].
  set (hs := map (ViewM.header t) (TableM.fields t)).
  assert (Hel : elems
            (Elem "table"
               [("class",
                 "ui selectable celled unstackable single line left aligned table")]
               None
               [ Elem "thead" [] None
                   [Elem "tr" [("class", "center aligned")] None hs];
                 Elem "tbody" [] None (trs ++ ViewM.notices t) ])
          = [("table", None); ("thead", None); ("tr", None)]
            ++ flat_map elems hs
            ++ [("tbody", None)]
            ++ map (tr_of h) (TableM._shownData t)
            ++ flat_map elems (ViewM.notices t)).
  { rewrite elems_Elem. cbn [flat_map]. rewrite !elems_Elem. cbn [flat_map].
    rewrite !elems_Elem, flat_map_app, He, !app_nil_r. reflexivity. }
  destruct (notices_handlers t) as [Hn1 Hn2].
  unfold handlers, handlers_of. rewrite Hel, !omap_app.
  subst hs. rewrite headers_handlers, headers_handlers_of.
  rewrite rows_handlers, rows_handlers_of, Hn1, Hn2.
  split; by rewrite app_nil_r.
Qed.

Lemma view_epoch_raises (f : Field) (d : option Value) :
  cls f = CEpochField → (∀ z, d ≠ Some (VNum z)) →
  view f d = Raise TypeError.
Proof.
  intros Hc Hd. unfold FieldM.view, FieldM.format. rewrite Hc.
  destruct d as [[| | z | | |]|]; try done. by destruct (Hd z).
Qed.

Lemma view_plain_ok (f : Field) (d : option Value) :
  cls f = CField ∨ cls f = CFillField ∨ cls f = CDateField →
  ∃ c, view f d = Ok c.
Proof.
  unfold FieldM.view, FieldM.format.
  intros [-> | [-> | ->]]; by eexists.
Qed.


End ViewOfTable.

Lemma view_clicks_witness :
  let h := Scenario.dated_selected.1 in
  let t := Scenario.dated_selected.2 in
  ∃ n, ViewM._view TableM._getField (fun _ => "") (fun _ => "") h t = Ok n
       ∧ handlers_of "tr.active" n = [OnSelectRow 0%nat].
Proof.
  cbv zeta.
  destruct (ViewM._view TableM._getField (fun _ => "") (fun _ => "")
              Scenario.dated_selected.1 Scenario.dated_selected.2)
    as [n|e] eqn:Hn; [|by vm_compute in Hn].
  exists n. split; [done|].
  rewrite (proj2 (view_clicks _ _ _ _ _ n Hn)). by vm_compute.
Defined.

Section Notices.

Context {Callable : Type}.
Variable call : Callable -> Obj -> bool.
Variable key_lt : option Value -> option Value -> bool.
Variable getField : Obj -> Field -> option Value.
Variable repr : Value -> string.
Variable toISOString : Z -> string.
Implicit Types (h : Heap) (t : TableM.Table Callable).

Lemma notices_texts t :
  flat_map texts (ViewM.notices t)
  = (if (TableM.max_size t <=? TableM.shown t)%nat
     then [ViewM._limitText t] else [])
    ++ (if (TableM.shown t =? 0)%nat then [ViewM.no_results_text] else []).
Proof.
  unfold ViewM.notices. by destruct (_ <=? _)%nat, (_ =? _)%nat.
Qed.

(** X11.  The texts of the view of a table whose shown rows were just
    derived, the data cells apart: the titles of the fields, then
    "Limited to [max_size] results." when at least [max_size] rows of the
    data pass the filter, also when exactly [max_size] do and no row was
    left out, then "No results found." when no row passes it or [max_size]
    is zero. *)
Theorem view_notices h t (n : Node)
    (Hn : ViewM._view getField repr toISOString h
            (TableM._processData call key_lt getField h t) = Ok n) :
  let passing :=
    List.length
      (List.filter (TableM.accepted call h (TableM.filter t)) (TableM.data t)) in
  texts n
  = map title (TableM.fields t)
    ++ (if (TableM.max_size t <=? passing)%nat
        then [ViewM._limitText t] else [])
    ++ (if (passing =? 0)%nat || (TableM.max_size t =? 0)%nat
        then [ViewM.no_results_text] else []).
Proof.
  cbv zeta.
  set (t' := TableM._processData call key_lt getField h t) in *.
  destruct (processData_frame call key_lt getField h t)
    as (Hm & Hf & _).
  destruct (processData_shown call key_lt getField h t) as [Hp Hs].
  cbv zeta in Hp, Hs. fold t' in Hm, Hf, Hp, Hs.
  apply view_Ok in Hn as (trs & Htrs & ->).
  apply rows_elems in Htrs as [_ Ht].
  rewrite texts_Elem. cbn [flat_map]. rewrite !texts_Elem. cbn [flat_map].
  rewrite !texts_Elem, !app_nil_r, flat_map_app, Ht, headers_texts.
  rewrite notices_texts, Hf. cbn [app]. f_equal.
  assert (Hshown : TableM.shown t'
                   = Nat.min (TableM.max_size t)
                       (List.length
                          (List.filter
                             (TableM.accepted call h (TableM.filter t))
                             (TableM.data t)))).
  { by rewrite Hs, Hp, length_take. }
  unfold ViewM._limitText. rewrite Hm, Hshown.
  set (m := TableM.max_size t). set (k := List.length _).
  destruct (Nat.leb_spec m (m `min` k)), (Nat.leb_spec m k); try lia;
    destruct (Nat.eqb_spec (m `min` k) 0), (Nat.eqb_spec k 0),
      (Nat.eqb_spec m 0); try lia; done.
Qed.

End Notices.

Lemma view_notices_witness :
  let h := Scenario.dated.1 in
  let t := Scenario.dated.2 in
  ∃ n, ViewM._view TableM._getField (fun _ => "") (fun _ => "") h
         (TableM._processData Scenario.call value_lt TableM._getField h t)
       = Ok n
       ∧ texts n = ["Date"].
Proof.
  cbv zeta.
  destruct (ViewM._view TableM._getField (fun _ => "") (fun _ => "")
              Scenario.dated.1
              (TableM._processData Scenario.call value_lt TableM._getField
                 Scenario.dated.1 Scenario.dated.2))
    as [n|e] eqn:Hn; [|by vm_compute in Hn].
  exists n. split; [done|].
  rewrite (view_notices _ _ _ _ _ _ _ n Hn). by vm_compute.
Defined.

(** ** Searching again *)

Section SearchAgain.

Variable same : TabsM.Method -> TabsM.Method -> bool.
Variable key_lt : option Value -> option Value -> bool.
Variable getFieldOf : string -> Obj -> Field -> option Value.
Variable quote : string -> string.
Variable number : Z -> string.

(** The filter of a table of the page after [setFilter]. *)
Lemma setFilter_filter (s : Searcher) (h : Heap) (d : string)
    (t : TabsM.Table) (f : option TabsM.Method) :
  TableM.filter
    (TableM.setFilter same (TabsM.call s) key_lt (getFieldOf d) h t f) = f.
Proof.
  unfold TableM.setFilter.
  destruct (TableM.filter_ne same f (TableM.filter t)) eqn:Hne.
  - destruct (processData_frame (TabsM.call s) key_lt (getFieldOf d) h
                (TableM.set_filter f t)) as (_&_&_&_&_&Hf&_).
    by rewrite Hf.
  - destruct f as [[]|], (TableM.filter t) as [[]|]; done.
Qed.

Lemma setFilter_derives (s : Searcher) (h : Heap) (d : string)
    (t : TabsM.Table) (f : option TabsM.Method) :
  TableM.filter_ne same f (TableM.filter t) = true →
  TableM._shownData
    (TableM.setFilter same (TabsM.call s) key_lt (getFieldOf d) h t f)
  ≡ₚ take (TableM.max_size t)
       (List.filter (TableM.accepted (TabsM.call s) h f) (TableM.data t)).
Proof.
  intros Hne. unfold TableM.setFilter. rewrite Hne.
  by destruct (processData_shown (TabsM.call s) key_lt (getFieldOf d) h
                 (TableM.set_filter f t)) as [Hp _].
Qed.

Lemma searchAll_installs (w : TabsM.World) (text : option string)
    (tab : TabsM.Tab) :
  tab ∈ TabsM.tabs (TabsM.page (TabsM.searchAll same key_lt getFieldOf w text)) →
  TableM.filter (TabsM.table tab) = Some TabsM.searcher_search.
Proof.
  unfold TabsM.searchAll. cbn. intros (tab0 & -> & _)%list_elem_of_fmap.
  apply setFilter_filter.
Qed.

(** X12.  A second search, on a page whose tables all have the search
    installed as their filter.  [searchAll] gives the searcher the new
    term; what the tables then show depends on the comparison of the two
    bound methods in [setFilter].  Where they compare equal no table is
    touched, and the rows on display are still those of the term before;
    where they compare unequal every table is derived again and shows its
    first [max_size] rows that the new term finds. *)
Theorem search_again (w : TabsM.World) (text : option string)
    (Hall : ∀ tab, tab ∈ TabsM.tabs (TabsM.page w) →
                   TableM.filter (TabsM.table tab) = Some TabsM.searcher_search) :
  let s := SearcherM.setSearch (TabsM.searcher (TabsM.page w)) text in
  let w' := TabsM.searchAll same key_lt getFieldOf w text in
  TabsM.searcher (TabsM.page w') = s
  ∧ (same TabsM.searcher_search TabsM.searcher_search = true →
     TabsM.tabs (TabsM.page w') = TabsM.tabs (TabsM.page w))
  ∧ (same TabsM.searcher_search TabsM.searcher_search = false →
     ∀ i tab, TabsM.tabs (TabsM.page w) !! i = Some tab →
       ∃ tab', TabsM.tabs (TabsM.page w') !! i = Some tab'
         ∧ TableM._shownData (TabsM.table tab') ≡ₚ
             take (TableM.max_size (TabsM.table tab))
               (List.filter
                  (fun l => SearcherM.search s (deref (TabsM.heap w) l))
                  (TableM.data (TabsM.table tab)))).
Proof.
  cbv zeta. split; [done|]. split.
  - intros Hsame. unfold TabsM.searchAll. cbn.
    rewrite <- (map_id (TabsM.tabs (TabsM.page w))) at 2.
    apply map_ext_in. intros tab Htab%list_elem_of_In.
    unfold TableM.setFilter, TableM.filter_ne. rewrite (Hall tab Htab), Hsame.
    by destruct tab.
  - intros Hsame i tab Hi.
    assert (Htab : tab ∈ TabsM.tabs (TabsM.page w))
      by (by eapply list_elem_of_lookup_2).
    eexists. split.
    + unfold TabsM.searchAll. cbn. rewrite list_lookup_fmap, Hi. reflexivity.
    + cbn [TabsM.table TabsM.set_table]. apply setFilter_derives.
      unfold TableM.filter_ne. by rewrite (Hall tab Htab), Hsame.
Qed.

(** X13.  [searchCurrent] leaves the search on one table at most.  With an
    empty search box no table has a filter afterwards.  With a text and an
    active tab, the tabs of the active [Data_tab] have the search as their
    filter and every other table has none.  With a text and no active tab
    no table is touched; the searcher has the new term in each case. *)
Theorem searchCurrent_filters (w : TabsM.World) (text active : option string) :
  let w' := TabsM.searchCurrent same key_lt getFieldOf w text active in
  let typed := match text with Some (String _ _) => true | _ => false end in
  TabsM.searcher (TabsM.page w')
  = SearcherM.setSearch (TabsM.searcher (TabsM.page w)) text
  ∧ (typed = false →
     ∀ tab, tab ∈ TabsM.tabs (TabsM.page w') →
            TableM.filter (TabsM.table tab) = None)
  ∧ (typed = true →
     ∀ cur, TabsM.currentTab (TabsM.page w) active = Some cur →
     ∀ tab, tab ∈ TabsM.tabs (TabsM.page w') →
            TableM.filter (TabsM.table tab)
            = if String.eqb (TabsM.Data_tab tab) (TabsM.Data_tab cur)
              then Some TabsM.searcher_search else None)
  ∧ (typed = true → TabsM.currentTab (TabsM.page w) active = None →
     TabsM.tabs (TabsM.page w') = TabsM.tabs (TabsM.page w)).
Proof.
  cbv zeta. unfold TabsM.searchCurrent.
  set (typed := match text with Some (String _ _) => true | _ => false end).
  change (TabsM.currentTab (TabsM.set_searcher _ (TabsM.page w)) active)
    with (TabsM.currentTab (TabsM.page w) active).
  destruct typed, (TabsM.currentTab (TabsM.page w) active) as [cur|];
    cbn; (split; [done|]); split_and!; try done.
  - intros _ cur' [= <-] tab (tab0 & -> & _)%list_elem_of_fmap.
    destruct (String.eqb (TabsM.Data_tab tab0) (TabsM.Data_tab cur)) eqn:E;
      cbn [TabsM.Data_tab TabsM.table TabsM.set_table]; rewrite E;
      apply setFilter_filter.
  - intros _ tab (tab0 & -> & _)%list_elem_of_fmap. apply setFilter_filter.
  - intros _ tab (tab0 & -> & _)%list_elem_of_fmap. apply setFilter_filter.
Qed.

End SearchAgain.

Lemma search_again_witness :
  let w := TabsM.searchAll Scenario.same value_lt Scenario.getFieldOf
             Scenario.loaded_page (Some "agent") in
  let w' := TabsM.searchAll Scenario.same value_lt Scenario.getFieldOf
              w (Some "nothing") in
  (∀ tab, tab ∈ TabsM.tabs (TabsM.page w) →
          TableM.filter (TabsM.table tab) = Some TabsM.searcher_search)
  ∧ TabsM.tabs (TabsM.page w') = TabsM.tabs (TabsM.page w).
Proof.
  cbv zeta.
  assert (Hall : ∀ tab,
            tab ∈ TabsM.tabs
                    (TabsM.page
                       (TabsM.searchAll Scenario.same value_lt
                          Scenario.getFieldOf Scenario.loaded_page
                          (Some "agent"))) →
            TableM.filter (TabsM.table tab) = Some TabsM.searcher_search).
  { intros tab. apply searchAll_installs. }
  split; [exact Hall|].
  exact (proj1 (proj2
    (search_again Scenario.same value_lt Scenario.getFieldOf _
       (Some "nothing") Hall)) eq_refl).
Defined.

(** ** The cells of the id fields *)

Section IdCells.

Variable repr : Value -> string.
Variable toISOString : Z -> string.

Lemma strip_header (hd s : string) :
  (if PyStr.startswith hd (hd +:+ s)
   then substring (String.length hd)
          (String.length (hd +:+ s) - String.length hd) (hd +:+ s)
   else hd +:+ s) = s.
Proof.
  assert (Hp : PyStr.startswith hd (hd +:+ s) = true).
  { apply prefix_app. by exists s. }
  rewrite Hp, length_app_string.
  replace (String.length hd + String.length s - String.length hd)%nat
    with (String.length s) by lia.
  apply substring_skip_app.
Qed.

(** X14.  The cell of a field shows an id without the header of the class
    of the field: for a field of any class but [EpochField], [format] of
    the header followed by [s] is [s], and the cell has [s] as its title
    and as its text.  The header is taken off once, so an id that has it
    twice keeps one; a string that does not start with the header is shown
    as it is. *)
Theorem format_strips_header (f : Field) (s : string)
    (Hc : cls f ≠ CEpochField) :
  let hd := FieldM.Header (cls f) in
  FieldM.format repr toISOString f (VStr (hd +:+ s)) = Ok s
  ∧ FieldM.format repr toISOString f (VStr (hd +:+ hd +:+ s)) = Ok (hd +:+ s)
  ∧ (PyStr.startswith hd s = false →
     FieldM.format repr toISOString f (VStr s) = Ok s)
  ∧ ∃ a, FieldM.view repr toISOString f (Some (VStr (hd +:+ s)))
         = Ok {| tag := "td"; attrs := ("title", s) :: a; text := s |}.
Proof.
  cbv zeta.
  assert (Hf : ∀ x, FieldM.format repr toISOString f
                      (VStr (FieldM.Header (cls f) +:+ x)) = Ok x).
  { intros x. unfold FieldM.format.
    destruct (cls f) eqn:E; try done; cbn [FieldM.py_str];
      by rewrite <- E, strip_header. }
  split_and!.
  - apply Hf.
  - apply Hf.
  - intros Hs. unfold FieldM.format.
    destruct (cls f); try done; cbn [FieldM.py_str]; by rewrite Hs.
  - unfold FieldM.view. rewrite Hf. unfold FieldM.shorten.
    destruct (cls f); by eexists.
Qed.

End IdCells.

Lemma format_strips_header_witness :
  FieldM.format (fun _ => "") (fun _ => "")
    (TabsM.new_field CDIDField None None) (VStr "did:igo:abc") = Ok "abc".
Proof.
  assert (Hc : cls (TabsM.new_field CDIDField None None) ≠ CEpochField)
    by (by vm_compute).
  exact (proj1 (format_strips_header (fun _ => "") (fun _ => "")
                  (TabsM.new_field CDIDField None None) "abc" Hc)).
Defined.

(** ** Dummy data *)

Lemma dummy_get (i : nat) (fs : list Field) (o : Obj) (k : string) :
  get_attr k
    (foldl (fun obj field =>
              set_attr (name field) (VStr (dummy_text i (name field))) obj)
           o fs)
  = if bool_decide (k ∈ map name fs) then Some (VStr (dummy_text i k))
    else get_attr k o.
Proof.
  revert o. induction fs as [|f fs IH]; intros o; [done|].
  cbn [foldl map]. rewrite IH.
  destruct (decide (k ∈ map name fs)) as [Hin|Hin].
  - rewrite !bool_decide_eq_true_2; [done|by right|done].
  - rewrite (bool_decide_eq_false_2 _ Hin).
    destruct (decide (k = name f)) as [->|Hne].
    + rewrite get_set_attr_eq, bool_decide_eq_true_2; [done|by left].
    + rewrite get_set_attr_ne by done.
      rewrite bool_decide_eq_false_2; [done|].
      intros [?|?]%elem_of_cons; done.
Qed.

(** X15.  [_makeDummyData(count)] makes [count] rows, and the row of index
    [i] has under the name of each field of the table the text "test",
    [i], a space and that name, also when two fields have one name; it has
    no other key. *)
Theorem makeDummyData_rows {Callable : Type} (t : TableM.Table Callable)
    (count i : nat) (Hi : (i < count)%nat) :
  List.length (_makeDummyData t count) = count
  ∧ ∃ obj, _makeDummyData t count !! i = Some obj
      ∧ (∀ f, f ∈ TableM.fields t →
              TableM._getField obj f = Some (VStr (dummy_text i (name f))))
      ∧ (∀ k, k ∉ map name (TableM.fields t) → get_attr k obj = None).
Proof.
  unfold _makeDummyData. rewrite length_map, length_seq. split; [done|].
  exists (dummy_obj (TableM.fields t) i). split_and!.
  - rewrite list_lookup_fmap, lookup_seq_lt by done. done.
  - intros f Hf. unfold TableM._getField, dummy_obj. rewrite dummy_get.
    rewrite bool_decide_eq_true_2; [done|].
    apply list_elem_of_fmap. by exists f.
  - intros k Hk. unfold dummy_obj. rewrite dummy_get.
    by rewrite bool_decide_eq_false_2.
Qed.

Lemma makeDummyData_rows_witness :
  ∃ obj, _makeDummyData Scenario.entities_table 2 !! 1%nat = Some obj
         ∧ get_attr "hid" obj = Some (VStr "test1 hid").
Proof.
  destruct (makeDummyData_rows Scenario.entities_table 2 1 ltac:(lia))
    as (_ & obj & Hobj & Hget & _).
  exists obj. split; [exact Hobj|].
  apply (Hget (TabsM.new_field CHIDField None None)).
  apply (bool_decide_unpack _). by vm_compute.
Defined.
